(** * restic/fuse/dir.go: directory nodes of the FUSE view of a snapshot

    A shallow embedding of [src/restic/fuse/dir.go] and the properties of
    its directory factory, special-node flattening, attribute projection,
    listing, lookup and extended-attribute fetch.

    Conventions of the embedding.
    - Go strings are byte strings: [string] (a list of 8-bit characters),
      compared byte for byte.
    - [uint32]/[uint64] values are [Z]; where the code does arithmetic on
      them the wrap-around is written out ([wrap32]).
    - A pointer that the code tests against [nil] or dereferences is an
      [option]; dereferencing [None] is a run-time panic ([Panic]).
    - A Go [map[string]*restic.Node] is a [gmap string restic.Node]; a
      [range] over it visits the entries in an unspecified order, which is
      modelled by quantifying over the permutations of [map_to_list].
    - [&dir{...}] allocates a fresh object: directory objects live in a
      store ([heap]) and are named by their address.
    - The collaborators the file calls but does not define (the repository's
      [LoadTree], the file and symlink constructors, the process identity)
      are the fields of the class [Env]: an instance is the behaviour of the
      environment at the time of a call. *)

From Stdlib Require Import ZArith Lia String.
From stdpp Require Import base option list strings gmap pretty.

Local Open Scope Z_scope.

(** ** Machine integers and the [os] constants used by the file *)

Definition wrap32 (z : Z) : Z := z mod 2 ^ 32.

Module os.
(** [os.ModeDir]: the directory bit of an [os.FileMode] (a [uint32]). *)
Definition ModeDir : Z := Z.shiftl 1 31.
(** [os.ModePerm]: the Unix permission bits, [0777]. *)
Definition ModePerm : Z := 511.
(** [os.ModeSticky], one of the non-permission bits. *)
Definition ModeSticky : Z := Z.shiftl 1 20.
End os.

(** ** package restic: the descriptors handed out by the repository *)

Module restic.

(** [restic.ID], a 32-byte content hash, held as the number its bytes
    spell. *)
Definition ID : Type := N.

(** [time.Time], an instant. *)
Definition Time : Type := Z.

(** A Go [[]byte]: [None] is the nil slice, [Some bs] a non-nil slice
    holding [bs] (possibly empty). *)
Definition byte_slice : Type := option (list Byte.byte).

Record ExtendedAttribute : Type := {
  xName : string;
  xValue : byte_slice
}.

(** [restic.Node], restricted to the fields [dir.go] reads or writes.
    [Type_] is the Go field [Type], a string; [Subtree] is a [*restic.ID]. *)
Record Node : Type := {
  Name : string;
  Type_ : string;
  Mode : Z;
  ModTime : Time;
  AccessTime : Time;
  ChangeTime : Time;
  UID : Z;
  GID : Z;
  Inode : Z;
  Subtree : option ID;
  ExtendedAttributes : list ExtendedAttribute
}.

(** [restic.Tree]: the listing of a subtree.  [Nodes] is a
    [[]*restic.Node]; the pointers in it are taken to be non-nil. *)
Record Tree : Type := { Nodes : list Node }.

(** Modelled from the spec: [Node.GetExtendedAttribute] is defined in
    package restic, outside [dir.go].  Spec 4.5: given a name, linear-scan
    for a matching entry and return its bytes, no case-folding, no
    normalisation, exact byte-match on the name.  A miss is the nil slice,
    which is what its caller [Getxattr] tests for. *)
Fixpoint scanExtendedAttributes (attrs : list ExtendedAttribute) (a : string)
    : byte_slice :=
  match attrs with
  | [] => None
  | attr :: rest =>
      if String.eqb (xName attr) a then xValue attr
      else scanExtendedAttributes rest a
  end.

Definition GetExtendedAttribute (node : Node) (a : string) : byte_slice :=
  scanExtendedAttributes (ExtendedAttributes node) a.

End restic.

(** ** package bazil.org/fuse: the protocol types the file fills in *)

Module fuse.

(** [fuse.DirentType]; [DT_Unknown] is its zero value. *)
Inductive DirentType : Type :=
| DT_Unknown | DT_Socket | DT_Link | DT_File
| DT_Block | DT_Dir | DT_Char | DT_FIFO.

Record Dirent : Type := {
  dInode : Z;
  dType : DirentType;
  dName : string
}.

(** [fuse.Attr], restricted to the fields [dir.Attr] assigns, and [Size]
    as one of those it leaves alone. *)
Record Attr : Type := {
  Inode : Z;
  Size : Z;
  Atime : restic.Time;
  Mtime : restic.Time;
  Ctime : restic.Time;
  Mode : Z;
  Nlink : Z;
  Uid : Z;
  Gid : Z
}.

Record GetxattrRequest : Type := { reqName : string }.
Record GetxattrResponse : Type := { Xattr : restic.byte_slice }.

(** [fuse.ListxattrRequest] and [fuse.ListxattrResponse]: the response
    is one [[]byte], the names one after the other. *)
Record ListxattrRequest : Type := { lSize : Z }.
Record ListxattrResponse : Type := { lXattr : restic.byte_slice }.

(** The bytes a slice holds; the nil slice holds none. *)
Definition bytes_of (s : restic.byte_slice) : list Byte.byte :=
  match s with
  | Some bs => bs
  | None => []
  end.

(** [ListxattrResponse.Append] of the library, called with one name:
    [r.Xattr = append(r.Xattr, name...)], then
    [r.Xattr = append(r.Xattr, '\x00')]. *)
Definition Append (r : ListxattrResponse) (name : string) : ListxattrResponse :=
  {| lXattr := Some (bytes_of (lXattr r) ++ list_byte_of_string name
                       ++ [Byte.x00]) |}.

End fuse.

(** ** Errors and outcomes *)

(** Errors raised by the collaborators (backing store, file constructor),
    identified by their message.  They are a domain of their own: a
    collaborator does not produce the protocol errors [ENOENT] and
    [ErrNoXattr] (spec 7). *)
Definition repo_error : Type := string.

(** What a collaborator returns: Go's [(value, error)] pair. *)
Inductive result (A : Type) : Type :=
| Value (a : A)
| Failure (e : repo_error).
Arguments Value {A} a.
Arguments Failure {A} e.

(** The Go [error] values that leave this file. *)
Inductive error : Type :=
| ENOENT                          (* fuse.ENOENT *)
| ErrNoXattr                      (* fuse.ErrNoXattr *)
| BackendError (e : repo_error).  (* an error of a collaborator, unchanged *)

(** How a call ends: with a value, with an error, or in a panic. *)
Inductive outcome (A : Type) : Type :=
| Ok (a : A)
| Err (e : error)
| Panic.
Arguments Ok {A} a.
Arguments Err {A} e.
Arguments Panic {A}.

(** [SnapshotWithId] is declared in a sibling file of the package; these
    are the fields [newDirFromSnapshot] reads.  [sTree] is a [*restic.ID]. *)
Record SnapshotWithId : Type := {
  sID : restic.ID;
  sTree : option restic.ID;
  sTime : restic.Time
}.

Section Model.

Context {Repository BlobSizeCache file link : Type}.

(** The collaborators, as they behave at the time of a call. *)
Class Env : Type := {
  LoadTree : Repository → restic.ID → result restic.Tree;
  newFile : Repository → restic.Node → bool → BlobSizeCache → result file;
  newLink : Repository → restic.Node → bool → result link;
  Getuid : Z;
  Getgid : Z;
  inodeFromBackendID : restic.ID → Z
}.

(** [type dir struct]. *)
Record dir : Type := {
  repo : Repository;
  items : gmap string restic.Node;
  inode : Z;
  node : restic.Node;
  ownerIsRoot : bool;
  blobsize : BlobSizeCache
}.

(** The store of directory objects and their addresses. *)
Definition loc : Type := nat.
Definition heap : Type := list dir.

(** An [fs.Node] as [Lookup] returns it. *)
Inductive fsNode : Type :=
| DirNode (p : loc)
| FileNode (f : file)
| LinkNode (l : link).

(** *** The monad of calls: a store of objects, errors and panics *)

Definition M (A : Type) : Type := heap → outcome A * heap.

Definition ret {A} (a : A) : M A := λ h, (Ok a, h).

Definition bind {A B} (m : M A) (k : A → M B) : M B :=
  λ h, match m h with
       | (Ok a, h') => k a h'
       | (Err e, h') => (Err e, h')
       | (Panic, h') => (Panic, h')
       end.

Definition fail {A} (e : error) : M A := λ h, (Err e, h).

(** [*p]: a nil pointer dereference panics. *)
Definition deref {A} (p : option A) : M A :=
  λ h, match p with
       | Some v => (Ok v, h)
       | None => (Panic, h)
       end.

(** [&dir{...}]: a fresh object at the next free address. *)
Definition new (d : dir) : M loc := λ h, (Ok (length h), h ++ [d]).

(** A call to a collaborator; its error is passed on unchanged. *)
Definition call {A} (r : result A) : M A :=
  match r with
  | Value a => ret a
  | Failure e => fail (BackendError e)
  end.

Context {env : Env}.

Notation "x <- m ;; k" := (bind m (λ x, k))
  (at level 100, m at next level, right associativity).

(** [p == nil]. *)
Definition is_nil {A} (p : option A) : bool :=
  match p with
  | Some _ => false
  | None => true
  end.

(** [items[node.Name] = node]. *)
Definition index (items : gmap string restic.Node) (node : restic.Node)
    : gmap string restic.Node :=
  <[restic.Name node := node]> items.

(** [for _, node := range nodes { items[node.Name] = node }]. *)
Definition index_nodes (items : gmap string restic.Node)
    (nodes : list restic.Node) : gmap string restic.Node :=
  foldl index items nodes.

(** *** [newDir] (dir.go 31-51) *)
Definition newDir (repo : Repository) (node : restic.Node)
    (ownerIsRoot : bool) (blobsize : BlobSizeCache) : M loc :=
  subtree <- deref (restic.Subtree node) ;;
  tree <- call (LoadTree repo subtree) ;;
  let items := index_nodes ∅ (restic.Nodes tree) in
  new {| repo := repo;
         node := node;
         items := items;
         inode := restic.Inode node;
         ownerIsRoot := ownerIsRoot;
         blobsize := blobsize |}.

(** *** [replaceSpecialNodes] (dir.go 55-70) *)
Definition replaceSpecialNodes (repo : Repository) (node : restic.Node)
    : M (list restic.Node) :=
  if negb (String.eqb (restic.Type_ node) "dir") || is_nil (restic.Subtree node)
  then ret [node]
  else if negb (String.eqb (restic.Name node) ".")
          && negb (String.eqb (restic.Name node) "/")
  then ret [node]
  else
    subtree <- deref (restic.Subtree node) ;;
    tree <- call (LoadTree repo subtree) ;;
    ret (restic.Nodes tree).

(** *** [newDirFromSnapshot] (dir.go 72-107) *)

(** The loop over [tree.Nodes] (dir.go 80-90): flatten each top-level
    descriptor, stop at the first error, index what comes back. *)
Fixpoint flatten_index (repo : Repository) (top : list restic.Node)
    (items : gmap string restic.Node) : M (gmap string restic.Node) :=
  match top with
  | [] => ret items
  | n :: rest =>
      nodes <- replaceSpecialNodes repo n ;;
      flatten_index repo rest (index_nodes items nodes)
  end.

(** The descriptor synthesised for a snapshot root (dir.go 94-101); the
    fields the literal leaves out have their zero value. *)
Definition snapshot_node (snapshot : SnapshotWithId) : restic.Node :=
  {| restic.Name := EmptyString;
     restic.Type_ := EmptyString;
     restic.Mode := Z.lor os.ModeDir 365 (* 0555 *);
     restic.ModTime := sTime snapshot;
     restic.AccessTime := sTime snapshot;
     restic.ChangeTime := sTime snapshot;
     restic.UID := wrap32 Getuid;
     restic.GID := wrap32 Getgid;
     restic.Inode := 0;
     restic.Subtree := None;
     restic.ExtendedAttributes := [] |}.

Definition newDirFromSnapshot (repo : Repository) (snapshot : SnapshotWithId)
    (ownerIsRoot : bool) (blobsize : BlobSizeCache) : M loc :=
  root <- deref (sTree snapshot) ;;
  tree <- call (LoadTree repo root) ;;
  items <- flatten_index repo (restic.Nodes tree) ∅ ;;
  new {| repo := repo;
         node := snapshot_node snapshot;
         items := items;
         inode := inodeFromBackendID (sID snapshot);
         ownerIsRoot := ownerIsRoot;
         blobsize := blobsize |}.

(** *** Ranging over [d.items] *)

(** The orders in which a [range] over the map may visit its entries. *)
Definition range_order (m : gmap string restic.Node)
    (order : list (string * restic.Node)) : Prop :=
  order ≡ₚ map_to_list m.

(** *** [calcNumberOfLinks] (dir.go 127-138) *)

(** One turn of the loop; [count] is a [uint32], so [count++] wraps. *)
Definition count_link (count : Z) (entry : string * restic.Node) : Z :=
  if String.eqb (restic.Type_ entry.2) "dir" then wrap32 (count + 1)
  else count.

(** The loop run over the entries in a given order, from [count = 2]. *)
Definition calcNumberOfLinks_in (order : list (string * restic.Node)) : Z :=
  foldl count_link 2 order.

Definition calcNumberOfLinks (d : dir) : Z :=
  calcNumberOfLinks_in (map_to_list (items d)).

(** *** [dir.Attr] (dir.go 109-125): fills [a], returns a nil error *)
Definition Attr (d : dir) (a : fuse.Attr) : fuse.Attr * option error :=
  ({| fuse.Inode := inode d;
      fuse.Size := fuse.Size a;
      fuse.Atime := restic.AccessTime (node d);
      fuse.Mtime := restic.ModTime (node d);
      fuse.Ctime := restic.ChangeTime (node d);
      fuse.Mode := Z.lor os.ModeDir (restic.Mode (node d));
      fuse.Nlink := calcNumberOfLinks d;
      fuse.Uid := if ownerIsRoot d then fuse.Uid a else restic.UID (node d);
      fuse.Gid := if ownerIsRoot d then fuse.Gid a else restic.GID (node d) |},
   None).

(** *** [dir.ReadDirAll] (dir.go 140-163) *)

(** The [switch node.Type]: it has no default, so any other type leaves
    [typ] at the zero value of [fuse.DirentType]. *)
Definition direntType (typ : string) : fuse.DirentType :=
  if String.eqb typ "dir" then fuse.DT_Dir
  else if String.eqb typ "file" then fuse.DT_File
  else if String.eqb typ "symlink" then fuse.DT_Link
  else fuse.DT_Unknown.

Definition dirent (node : restic.Node) : fuse.Dirent :=
  {| fuse.dInode := restic.Inode node;
     fuse.dType := direntType (restic.Type_ node);
     fuse.dName := restic.Name node |}.

(** The loop run over the entries in a given order: [ret = append(ret, ...)]. *)
Definition ReadDirAll_in (order : list (string * restic.Node))
    : list fuse.Dirent * option error :=
  (foldl (λ ret entry, ret ++ [dirent entry.2]) [] order, None).

(** One run of [ReadDirAll]: the order stdpp lists the map in. *)
Definition ReadDirAll (d : dir) : list fuse.Dirent * option error :=
  ReadDirAll_in (map_to_list (items d)).

(** Every run of [ReadDirAll]: some admissible order was taken. *)
Definition ReadDirAll_returns (d : dir)
    (r : list fuse.Dirent * option error) : Prop :=
  ∃ order, range_order (items d) order ∧ r = ReadDirAll_in order.

(** *** [dir.Lookup] (dir.go 165-183) *)
Definition Lookup (d : dir) (name : string) : M fsNode :=
  match items d !! name with
  | None => fail ENOENT
  | Some node =>
      if String.eqb (restic.Type_ node) "dir" then
        p <- newDir (repo d) node (ownerIsRoot d) (blobsize d) ;;
        ret (DirNode p)
      else if String.eqb (restic.Type_ node) "file" then
        f <- call (newFile (repo d) node (ownerIsRoot d) (blobsize d)) ;;
        ret (FileNode f)
      else if String.eqb (restic.Type_ node) "symlink" then
        l <- call (newLink (repo d) node (ownerIsRoot d)) ;;
        ret (LinkNode l)
      else fail ENOENT
  end.

(** *** [dir.Getxattr] (dir.go 193-201) *)
Definition Getxattr (d : dir) (req : fuse.GetxattrRequest)
    (resp : fuse.GetxattrResponse) : fuse.GetxattrResponse * option error :=
  match restic.GetExtendedAttribute (node d) (fuse.reqName req) with
  | Some bs => ({| fuse.Xattr := Some bs |}, None)
  | None => (resp, Some ErrNoXattr)
  end.

(** *** Notions the properties are stated with *)

(** A descriptor that [replaceSpecialNodes] replaces: a directory with a
    subtree reference, named "." or "/". *)
Definition special_node (node : restic.Node) : Prop :=
  restic.Type_ node = "dir"
  ∧ is_Some (restic.Subtree node)
  ∧ (restic.Name node = "." ∨ restic.Name node = "/").

(** "The call returns the full list of descriptors of the node's own
    subtree." *)
Definition returns_own_subtree (repo : Repository) (node : restic.Node)
    (h : heap) : Prop :=
  ∃ subtree tree,
    restic.Subtree node = Some subtree
    ∧ LoadTree repo subtree = Value tree
    ∧ replaceSpecialNodes repo node h = (Ok (restic.Nodes tree), h).

(** "The number of children whose kind is Dir." *)
Definition subdirs (d : dir) : nat :=
  length (filter (λ entry : string * restic.Node,
                    restic.Type_ entry.2 = "dir")
                 (map_to_list (items d))).

(** "The permission bits of the node's own descriptor." *)
Definition permission_bits (d : dir) : Z :=
  Z.land (restic.Mode (node d)) os.ModePerm.

End Model.

Arguments Env : clear implicits.
Arguments dir : clear implicits.
Arguments heap : clear implicits.
Arguments fsNode : clear implicits.
Arguments M : clear implicits.

Section Listing.

Context {Repository BlobSizeCache : Type}.

(** *** [dir.Listxattr] (dir.go 185-191): appends every attribute name of
    the node's own descriptor to [resp], returns a nil error *)
Definition Listxattr (d : dir Repository BlobSizeCache)
    (req : fuse.ListxattrRequest) (resp : fuse.ListxattrResponse)
    : fuse.ListxattrResponse * option error :=
  (foldl (λ resp attr, fuse.Append resp (restic.xName attr)) resp
         (restic.ExtendedAttributes (node d)),
   None).

(** How [Listxattr] writes one name: its bytes and a NUL. *)
Definition listed (name : string) : list Byte.byte :=
  list_byte_of_string name ++ [Byte.x00].

(** Every child is filed under its own name. *)
Definition keys_named (m : gmap string restic.Node) : Prop :=
  ∀ name n, m !! name = Some n → restic.Name n = name.

(** Every directory object of the store files its children under their
    own names. *)
Definition heap_keys_named (h : heap Repository BlobSizeCache) : Prop :=
  ∀ p d, h !! p = Some d → keys_named (items d).

(** "The descriptors of type dir in a listing." *)
Definition dir_nodes (nodes : list restic.Node) : list restic.Node :=
  filter (λ n, restic.Type_ n = "dir") nodes.

End Listing.

(** ** A concrete repository, for running the model *)

Module Sample.

(** A descriptor with the given name, type, subtree and mode; the other
    fields are zero. *)
Definition mkNode (name typ : string) (subtree : option restic.ID)
    (mode : Z) : restic.Node :=
  {| restic.Name := name;
     restic.Type_ := typ;
     restic.Mode := mode;
     restic.ModTime := 0;
     restic.AccessTime := 0;
     restic.ChangeTime := 0;
     restic.UID := 1000;
     restic.GID := 1000;
     restic.Inode := 0;
     restic.Subtree := subtree;
     restic.ExtendedAttributes := [] |}.

Definition dot : restic.Node := mkNode "." "dir" (Some 2%N) 493.
Definition a_txt : restic.Node := mkNode "a.txt" "file" None 420.
Definition sub : restic.Node := mkNode "sub" "dir" (Some 3%N) 493.
Definition pipe : restic.Node := mkNode "pipe" "fifo" None 420.
Definition inner_dot : restic.Node := mkNode "." "dir" (Some 3%N) 493.
Definition dangling_dot : restic.Node := mkNode "." "dir" None 493.
Definition sticky : restic.Node :=
  mkNode "tmp" "dir" (Some 3%N) (Z.lor os.ModeSticky 511).
Definition a_link : restic.Node := mkNode "a.txt" "symlink" None 511.
Definition fifos : restic.Node := mkNode "fifos" "dir" (Some 4%N) 493.
Definition twice : restic.Node := mkNode "twice" "dir" (Some 6%N) 493.
Definition wrapped : restic.Node := mkNode "/" "dir" (Some 5%N) 493.

(** Tree 1 is a snapshot root wrapping tree 2 under "."; tree 2 holds a
    file and a directory; tree 3 is empty; tree 4 holds a fifo; tree 5
    holds a "." wrapper of its own; tree 6 lists the name "a.txt" twice. *)
Definition trees (id : restic.ID) : result restic.Tree :=
  match id with
  | 1%N => Value {| restic.Nodes := [dot] |}
  | 2%N => Value {| restic.Nodes := [a_txt; sub] |}
  | 3%N => Value {| restic.Nodes := [] |}
  | 4%N => Value {| restic.Nodes := [pipe] |}
  | 5%N => Value {| restic.Nodes := [inner_dot; a_txt] |}
  | 6%N => Value {| restic.Nodes := [a_txt; sub; a_link] |}
  | _ => Failure "tree not found"
  end.

(** File and symlink handles are the descriptors they were made from. *)
Definition env : Env unit unit restic.Node restic.Node :=
  {| LoadTree := λ _ id, trees id;
     newFile := λ _ node _ _, Value node;
     newLink := λ _ node _, Value node;
     Getuid := 1000;
     Getgid := 1000;
     inodeFromBackendID := λ id, Z.of_N id |}.

Definition snapshot : SnapshotWithId :=
  {| sID := 77%N; sTree := Some 1%N; sTime := 1500000000 |}.

(** A directory object holding the given children, whose own descriptor
    is [own]. *)
Definition mkDir (own : restic.Node) (children : list restic.Node)
    : dir unit unit :=
  {| repo := tt;
     items := index_nodes ∅ children;
     inode := restic.Inode own;
     node := own;
     ownerIsRoot := false;
     blobsize := tt |}.

(** The repository at a later time: tree 2 is gone, the others are as
    before. *)
Definition env_later : Env unit unit restic.Node restic.Node :=
  {| LoadTree := λ _ id, if (id =? 2)%N then Failure "tree lost" else trees id;
     newFile := λ _ node _ _, Value node;
     newLink := λ _ node _, Value node;
     Getuid := 0;
     Getgid := 0;
     inodeFromBackendID := λ id, Z.of_N id |}.

(** The zero [fuse.Attr] and [fuse.GetxattrResponse]. *)
Definition zero_attr : fuse.Attr :=
  {| fuse.Inode := 0; fuse.Size := 0; fuse.Atime := 0; fuse.Mtime := 0;
     fuse.Ctime := 0; fuse.Mode := 0; fuse.Nlink := 0; fuse.Uid := 0;
     fuse.Gid := 0 |}.
Definition zero_resp : fuse.GetxattrResponse := {| fuse.Xattr := None |}.

Definition with_xattrs (n : restic.Node)
    (attrs : list restic.ExtendedAttribute) : restic.Node :=
  {| restic.Name := restic.Name n;
     restic.Type_ := restic.Type_ n;
     restic.Mode := restic.Mode n;
     restic.ModTime := restic.ModTime n;
     restic.AccessTime := restic.AccessTime n;
     restic.ChangeTime := restic.ChangeTime n;
     restic.UID := restic.UID n;
     restic.GID := restic.GID n;
     restic.Inode := restic.Inode n;
     restic.Subtree := restic.Subtree n;
     restic.ExtendedAttributes := attrs |}.

(** A directory whose descriptor carries three extended attributes: one
    with two bytes, one with a non-nil empty value, one with a nil value. *)
Definition tagged : dir unit unit :=
  mkDir (with_xattrs sub
         [ {| restic.xName := "user.k";
              restic.xValue := Some [Byte.x68; Byte.x69] |};
           {| restic.xName := "user.empty"; restic.xValue := Some [] |};
           {| restic.xName := "user.nil"; restic.xValue := None |} ])
      [].

(** The directories [newDir] builds from [sticky] and from [fifos]. *)
Definition sticky_dir : dir unit unit := mkDir sticky [].
Definition fifos_dir : dir unit unit := mkDir fifos [pipe].

(** The parent of the samples. *)
Definition parent : dir unit unit :=
  mkDir dot [a_txt; sub; pipe; a_link; dangling_dot; fifos; twice].

(** A directory with [2^32 - 2] subdirectories, named "0", "1", ... *)
Definition many : nat := Z.to_nat 4294967294.
Definition subdir_named (i : nat) : restic.Node :=
  mkNode (pretty i) "dir" (Some 3%N) 493.
Definition crowded : dir unit unit := mkDir dot (subdir_named <$> seq 0 many).

(** A second repository: tree 10 is a snapshot root that lists a file,
    a "/" wrapper of tree 11 and a directory; tree 11 lists "a.txt" again,
    as a symlink, and a fifo; trees 12 and 13 list the same three
    descriptors in different orders; tree 20 is a snapshot root whose "."
    wrapper points at a tree that cannot be loaded. *)
Definition slash : restic.Node := mkNode "/" "dir" (Some 11%N) 493.
Definition lost_dot : restic.Node := mkNode "." "dir" (Some 99%N) 493.

Definition mixed_trees (id : restic.ID) : result restic.Tree :=
  match id with
  | 3%N => Value {| restic.Nodes := [] |}
  | 10%N => Value {| restic.Nodes := [a_txt; slash; sub] |}
  | 11%N => Value {| restic.Nodes := [a_link; pipe] |}
  | 12%N => Value {| restic.Nodes := [sub; pipe; a_link] |}
  | 13%N => Value {| restic.Nodes := [a_link; sub; pipe] |}
  | 20%N => Value {| restic.Nodes := [a_txt; lost_dot; sub] |}
  | _ => Failure "tree not found"
  end.

Definition env_mixed : Env unit unit restic.Node restic.Node :=
  {| LoadTree := λ _ id, mixed_trees id;
     newFile := λ _ node _ _, Value node;
     newLink := λ _ node _, Value node;
     Getuid := 1000;
     Getgid := 1000;
     inodeFromBackendID := λ id, Z.of_N id |}.

Definition snapshot_mixed : SnapshotWithId :=
  {| sID := 78%N; sTree := Some 10%N; sTime := 1500000000 |}.
Definition snapshot_broken : SnapshotWithId :=
  {| sID := 79%N; sTree := Some 20%N; sTime := 1500000000 |}.

Definition mixed_11 : restic.Node := mkNode "eleven" "dir" (Some 11%N) 493.
Definition mixed_12 : restic.Node := mkNode "twelve" "dir" (Some 12%N) 493.
Definition mixed_13 : restic.Node := mkNode "thirteen" "dir" (Some 13%N) 493.

(** The root [newDirFromSnapshot] builds from [snapshot] in [env], with
    the owner masked. *)
Definition root_dir : dir unit unit :=
  {| repo := tt;
     items := index_nodes ∅ [a_txt; sub];
     inode := 77;
     node := snapshot_node (env:=env) snapshot;
     ownerIsRoot := true;
     blobsize := tt |}.

Definition zero_lresp : fuse.ListxattrResponse := {| fuse.lXattr := None |}.
Definition zero_lreq : fuse.ListxattrRequest := {| fuse.lSize := 0 |}.

End Sample.

(** ** Properties *)

Section Properties.

Context {Repository BlobSizeCache file link : Type}.
Context {env : Env Repository BlobSizeCache file link}.

Local Abbreviation dir := (dir Repository BlobSizeCache).
Local Abbreviation heap := (heap Repository BlobSizeCache).

Implicit Types (d : dir) (h : heap) (node n : restic.Node).
Implicit Types (nodes : list restic.Node) (m : gmap string restic.Node).
Implicit Types (name : string) (repo : Repository).

(** Unfolds the monad of calls, so that a run reduces by rewriting with
    what the collaborators return. *)
Ltac run_calls := unfold bind, call, deref, new, ret, fail.

(** *** Indexing a listing by name *)

Lemma index_nodes_snoc m nodes n :
  index_nodes m (nodes ++ [n]) = <[restic.Name n := n]> (index_nodes m nodes).
Proof. unfold index_nodes. by rewrite foldl_snoc. Qed.

(** A name maps to the last descriptor of the listing that bears it. *)
Lemma index_nodes_lookup m nodes name :
  index_nodes m nodes !! name =
    match last (filter (λ n, restic.Name n = name) nodes) with
    | Some n => Some n
    | None => m !! name
    end.
Proof.
  induction nodes as [|n nodes IH] using rev_ind; [done|].
  rewrite index_nodes_snoc, filter_app.
  destruct (decide (restic.Name n = name)) as [Hn|Hn].
  - rewrite filter_cons_True, filter_nil by done.
    rewrite last_snoc. subst name. apply lookup_insert_eq.
  - rewrite filter_cons_False, filter_nil, app_nil_r by done.
    by rewrite lookup_insert_ne.
Qed.

Lemma dom_index_nodes m nodes :
  dom (index_nodes m nodes) = dom m ∪ list_to_set (restic.Name <$> nodes).
Proof.
  induction nodes as [|n nodes IH] using rev_ind.
  - cbn. set_solver.
  - rewrite index_nodes_snoc, dom_insert_L, IH, fmap_app, list_to_set_app_L.
    cbn. set_solver.
Qed.

Lemma index_nodes_app m l1 l2 :
  index_nodes m (l1 ++ l2) = index_nodes (index_nodes m l1) l2.
Proof. apply foldl_app. Qed.

(** With distinct names, the map lists the listing, in some order. *)
Lemma map_to_list_index_nodes nodes :
  NoDup (restic.Name <$> nodes) →
  map_to_list (index_nodes ∅ nodes) ≡ₚ (λ n, (restic.Name n, n)) <$> nodes.
Proof.
  induction nodes as [|n nodes IH] using rev_ind; intros Hnd.
  - cbn. by rewrite map_to_list_empty.
  - rewrite fmap_app in Hnd. apply NoDup_app in Hnd as (Hl & Hdisj & _).
    rewrite index_nodes_snoc, fmap_app. cbn.
    rewrite map_to_list_insert.
    + rewrite IH by done. by rewrite Permutation_cons_append.
    + apply not_elem_of_dom. rewrite dom_index_nodes.
      intros [Hin|Hin]%elem_of_union; [set_solver|].
      apply elem_of_list_to_set in Hin.
      apply (Hdisj _ Hin). set_solver.
Qed.

(** *** Running the factory *)

Lemma newDir_run repo node o b subtree tree h :
  restic.Subtree node = Some subtree →
  LoadTree repo subtree = Value tree →
  newDir repo node o b h =
    (Ok (length h),
     h ++ [{| repo := repo; node := node;
              items := index_nodes ∅ (restic.Nodes tree);
              inode := restic.Inode node; ownerIsRoot := o;
              blobsize := b |}]).
Proof.
  intros Hs Ht. unfold newDir. run_calls. by rewrite Hs, Ht.
Qed.

Lemma newDir_nil_subtree repo node o b h :
  restic.Subtree node = None → newDir repo node o b h = (Panic, h).
Proof. intros Hs. unfold newDir. run_calls. by rewrite Hs. Qed.

Lemma newDir_load_fails repo node o b subtree e h :
  restic.Subtree node = Some subtree →
  LoadTree repo subtree = Failure e →
  newDir repo node o b h = (Err (BackendError e), h).
Proof.
  intros Hs Ht. unfold newDir. run_calls. by rewrite Hs, Ht.
Qed.

(** [newDir] never reports one of the protocol errors. *)
Lemma newDir_outcome repo node o b h :
  (∃ d, newDir repo node o b h = (Ok (length h), h ++ [d]))
  ∨ (∃ e, newDir repo node o b h = (Err (BackendError e), h))
  ∨ newDir repo node o b h = (Panic, h).
Proof.
  destruct (restic.Subtree node) as [subtree|] eqn:Hs.
  - destruct (LoadTree repo subtree) as [tree|e] eqn:Ht.
    + left. eexists. by eapply newDir_run.
    + right; left. exists e. by eapply newDir_load_fails.
  - right; right. by apply newDir_nil_subtree.
Qed.

Lemma heap_lookup_new h d : (h ++ [d]) !! length h = Some d.
Proof. by rewrite lookup_app_r, Nat.sub_diag by lia. Qed.

(** *** The from-subtree factory *)

(** C3. When [LoadTree] succeeds on the subtree of [node], [newDir] builds
    a directory whose children are the loaded descriptors indexed by name,
    as they are (a descriptor named "." or "/" is a child like any other:
    nothing is flattened here): the keys are exactly the names of the
    listing, and a name borne by several descriptors maps to the last of
    them in the listing's order. *)
Theorem newDir_children repo node o b subtree tree h :
  restic.Subtree node = Some subtree →
  LoadTree repo subtree = Value tree →
  ∃ d,
    newDir repo node o b h = (Ok (length h), h ++ [d])
    ∧ (h ++ [d]) !! length h = Some d
    ∧ dom (items d) = list_to_set (restic.Name <$> restic.Nodes tree)
    ∧ (∀ n, n ∈ restic.Nodes tree → is_Some (items d !! restic.Name n))
    ∧ (∀ name,
         items d !! name =
           last (filter (λ n, restic.Name n = name) (restic.Nodes tree))).
Proof.
  intros Hs Ht. eexists. split; [by eapply newDir_run|].
  split; [apply heap_lookup_new|]. cbn.
  assert (Hdom : dom (index_nodes ∅ (restic.Nodes tree))
                 = list_to_set (restic.Name <$> restic.Nodes tree)).
  { rewrite dom_index_nodes, dom_empty_L. apply (left_id_L ∅ (∪)). }
  split; [exact Hdom|]. split.
  - intros n Hn. apply elem_of_dom. rewrite Hdom.
    apply elem_of_list_to_set, list_elem_of_fmap. by exists n.
  - intros name. rewrite index_nodes_lookup, lookup_empty.
    by destruct (last _).
Qed.

(** *** Special-node flattening *)

Lemma replaceSpecialNodes_special repo node subtree h :
  restic.Type_ node = "dir" →
  restic.Subtree node = Some subtree →
  restic.Name node = "." ∨ restic.Name node = "/" →
  replaceSpecialNodes repo node h =
    (match LoadTree repo subtree with
     | Value tree => Ok (restic.Nodes tree)
     | Failure e => Err (BackendError e)
     end, h).
Proof.
  intros Ht Hs Hn. unfold replaceSpecialNodes.
  rewrite Ht, Hs. cbn.
  assert (negb (String.eqb (restic.Name node) ".")
          && negb (String.eqb (restic.Name node) "/") = false) as ->.
  { destruct Hn as [-> | ->]; reflexivity. }
  run_calls. by destruct (LoadTree repo subtree).
Qed.

Lemma replaceSpecialNodes_plain repo node h :
  restic.Type_ node ≠ "dir" ∨ restic.Subtree node = None
    ∨ (restic.Name node ≠ "." ∧ restic.Name node ≠ "/") →
  replaceSpecialNodes repo node h = (Ok [node], h).
Proof.
  intros Hc. unfold replaceSpecialNodes.
  destruct (String.eqb_spec (restic.Type_ node) "dir") as [Ht|Ht]; cbn;
    [|done].
  destruct (restic.Subtree node) as [subtree|] eqn:Hs; cbn; [|done].
  destruct Hc as [Hc|[Hc|[Hdot Hslash]]]; [done..|].
  apply String.eqb_neq in Hdot, Hslash. by rewrite Hdot, Hslash.
Qed.

Lemma not_special_node node :
  ¬ special_node node ↔
  restic.Type_ node ≠ "dir" ∨ restic.Subtree node = None
    ∨ (restic.Name node ≠ "." ∧ restic.Name node ≠ "/").
Proof.
  unfold special_node. split.
  - intros Hn.
    destruct (decide (restic.Type_ node = "dir")) as [Ht|Ht]; [|by left].
    destruct (restic.Subtree node) as [subtree|] eqn:Hs; [|by right; left].
    right; right. split; intros Hname; apply Hn; eauto.
  - intros [Ht|[Hs|[Hdot Hslash]]] (Ht' & Hs' & Hname); [done|..].
    + rewrite Hs in Hs'. by destruct Hs'.
    + by destruct Hname.
Qed.

(** Flattening never panics and never touches the object store. *)
Lemma replaceSpecialNodes_safe repo node h :
  ∃ r, replaceSpecialNodes repo node h = (r, h) ∧ r ≠ Panic.
Proof.
  destruct (decide (restic.Type_ node = "dir")) as [Ht|Ht].
  - destruct (restic.Subtree node) as [subtree|] eqn:Hs.
    + destruct (decide (restic.Name node = "." ∨ restic.Name node = "/"))
        as [Hn|Hn].
      * eexists. split; [by apply replaceSpecialNodes_special|].
        by destruct (LoadTree repo subtree).
      * exists (Ok [node]). split; [|done].
        apply replaceSpecialNodes_plain. right; right.
        split; intros Hname; apply Hn; eauto.
    + exists (Ok [node]). split; [|done].
      apply replaceSpecialNodes_plain. by right; left.
  - exists (Ok [node]). split; [|done].
    apply replaceSpecialNodes_plain. by left.
Qed.

Lemma flatten_index_cons repo n rest m h :
  flatten_index repo (n :: rest) m h =
    match replaceSpecialNodes repo n h with
    | (Ok nodes, h') => flatten_index repo rest (index_nodes m nodes) h'
    | (Err e, h') => (Err e, h')
    | (Panic, h') => (Panic, h')
    end.
Proof. reflexivity. Qed.

Lemma flatten_index_safe repo top m h :
  ∃ r, flatten_index repo top m h = (r, h) ∧ r ≠ Panic.
Proof.
  revert m. induction top as [|n rest IH]; intros m.
  - by exists (Ok m).
  - rewrite flatten_index_cons.
    destruct (replaceSpecialNodes_safe repo n h) as (r & -> & Hr).
    destruct r as [nodes|e|]; [apply IH|by exists (Err e)|done].
Qed.

(** C2. [replaceSpecialNodes] on a directory that has a subtree reference
    and is named exactly "." or "/" loads that subtree and returns its
    descriptors as they are listed, none of them flattened in turn (a
    failure of [LoadTree] is passed on unchanged); on every other
    descriptor, among them a directory named "." or "/" whose subtree
    reference is nil, it returns the one-element list of the descriptor
    itself. *)
Theorem replaceSpecialNodes_spec repo node h :
  (special_node node ∧
     ∃ subtree, restic.Subtree node = Some subtree ∧
       replaceSpecialNodes repo node h =
         (match LoadTree repo subtree with
          | Value tree => Ok (restic.Nodes tree)
          | Failure e => Err (BackendError e)
          end, h))
  ∨ (¬ special_node node ∧ replaceSpecialNodes repo node h = (Ok [node], h)).
Proof.
  destruct (decide (restic.Type_ node = "dir")) as [Ht|Ht].
  - destruct (restic.Subtree node) as [subtree|] eqn:Hs.
    + destruct (decide (restic.Name node = "." ∨ restic.Name node = "/"))
        as [Hn|Hn].
      * left. split; [unfold special_node; rewrite Hs; eauto|].
        exists subtree. split; [done|].
        by apply replaceSpecialNodes_special.
      * right.
        assert (restic.Name node ≠ "." ∧ restic.Name node ≠ "/") as Hn'
          by (split; intros Hname; apply Hn; eauto).
        split; [apply not_special_node; eauto|].
        apply replaceSpecialNodes_plain; eauto.
    + right. split; [apply not_special_node; eauto|].
      apply replaceSpecialNodes_plain; eauto.
  - right. split; [apply not_special_node; eauto|].
    apply replaceSpecialNodes_plain; eauto.
Qed.

(** C10. A descriptor that is not a directory, or whose subtree reference
    is nil (be it named "." or "/"), comes back from [replaceSpecialNodes]
    as the one-element list of itself, whatever the repository holds: no
    reference is followed, nothing panics, the object store is untouched.
    The loop of [newDirFromSnapshot] therefore indexes such a descriptor
    under its own name and goes on with the rest of the listing. *)
Theorem replaceSpecialNodes_absent_subtree repo node h :
  restic.Type_ node ≠ "dir" ∨ restic.Subtree node = None →
  replaceSpecialNodes repo node h = (Ok [node], h)
  ∧ ∀ rest m,
      flatten_index repo (node :: rest) m h =
        flatten_index repo rest (<[restic.Name node := node]> m) h.
Proof.
  intros Hc.
  assert (replaceSpecialNodes repo node h = (Ok [node], h)) as Hr.
  { apply replaceSpecialNodes_plain. destruct Hc; eauto. }
  split; [exact Hr|]. intros rest m.
  by rewrite flatten_index_cons, Hr.
Qed.

(** *** The from-snapshot factory *)

Lemma newDirFromSnapshot_run repo snapshot o b root top m h :
  sTree snapshot = Some root →
  LoadTree repo root = Value top →
  flatten_index repo (restic.Nodes top) ∅ h = (Ok m, h) →
  newDirFromSnapshot repo snapshot o b h =
    (Ok (length h),
     h ++ [{| repo := repo; node := snapshot_node snapshot; items := m;
              inode := inodeFromBackendID (sID snapshot);
              ownerIsRoot := o; blobsize := b |}]).
Proof.
  intros Hs Ht Hf. unfold newDirFromSnapshot. run_calls.
  by rewrite Hs, Ht, Hf.
Qed.


(** C1. A snapshot whose top-level listing is the single directory
    descriptor "." pointing at subtree [S] yields, when both loads
    succeed, a root directory with the very children map of the directory
    that [newDir] builds from a descriptor pointing at [S]. *)
Theorem newDirFromSnapshot_dot_wrapper
    repo snapshot root top wrapper S tree node o b o' b' h h' :
  sTree snapshot = Some root →
  LoadTree repo root = Value top →
  restic.Nodes top = [wrapper] →
  restic.Type_ wrapper = "dir" →
  restic.Name wrapper = "." →
  restic.Subtree wrapper = Some S →
  LoadTree repo S = Value tree →
  restic.Subtree node = Some S →
  ∃ d1 d2,
    newDirFromSnapshot repo snapshot o b h = (Ok (length h), h ++ [d1])
    ∧ newDir repo node o' b' h' = (Ok (length h'), h' ++ [d2])
    ∧ items d1 = items d2.
Proof.
  intros Hroot Htop Hnodes Hty Hname Hsub Htree Hnode.
  do 2 eexists. split; [|split].
  - eapply newDirFromSnapshot_run; [done..|].
    rewrite Hnodes, flatten_index_cons.
    rewrite (replaceSpecialNodes_special _ _ S) by eauto.
    rewrite Htree. reflexivity.
  - by eapply newDir_run.
  - reflexivity.
Qed.

(** *** Lookup *)

Lemma Lookup_absent d name h :
  items d !! name = None → Lookup d name h = (Err ENOENT, h).
Proof. intros Hl. unfold Lookup. by rewrite Hl. Qed.

(** A child of type "dir" is resolved by [newDir] on the child's own
    descriptor (hence on its subtree reference), with the parent's
    repository, owner policy and cache. *)
Lemma Lookup_dir d name n h :
  items d !! name = Some n →
  restic.Type_ n = "dir" →
  Lookup d name h =
    match newDir (repo d) n (ownerIsRoot d) (blobsize d) h with
    | (Ok p, h') => (Ok (DirNode p), h')
    | (Err e, h') => (Err e, h')
    | (Panic, h') => (Panic, h')
    end.
Proof.
  intros Hl Ht. unfold Lookup. rewrite Hl, Ht. cbn. unfold bind, ret.
  by destruct (newDir _ _ _ _ h) as [[p|e|] h'].
Qed.

Lemma Lookup_file d name n h :
  items d !! name = Some n →
  restic.Type_ n = "file" →
  Lookup d name h =
    (match newFile (repo d) n (ownerIsRoot d) (blobsize d) with
     | Value f => Ok (FileNode f)
     | Failure e => Err (BackendError e)
     end, h).
Proof.
  intros Hl Ht. unfold Lookup. rewrite Hl, Ht. cbn. unfold bind, call.
  by destruct (newFile _ _ _ _).
Qed.

Lemma Lookup_symlink d name n h :
  items d !! name = Some n →
  restic.Type_ n = "symlink" →
  Lookup d name h =
    (match newLink (repo d) n (ownerIsRoot d) with
     | Value l => Ok (LinkNode l)
     | Failure e => Err (BackendError e)
     end, h).
Proof.
  intros Hl Ht. unfold Lookup. rewrite Hl, Ht. cbn. unfold bind, call.
  by destruct (newLink _ _ _).
Qed.

Lemma Lookup_unknown_type d name n h :
  items d !! name = Some n →
  restic.Type_ n ≠ "dir" →
  restic.Type_ n ≠ "file" →
  restic.Type_ n ≠ "symlink" →
  Lookup d name h = (Err ENOENT, h).
Proof.
  intros Hl Hd Hf Hs. unfold Lookup. rewrite Hl.
  apply String.eqb_neq in Hd, Hf, Hs. by rewrite Hd, Hf, Hs.
Qed.

(** C4. [Lookup] fails with [ENOENT] exactly when the name is not among
    the children or the child's type is none of "dir", "file" and
    "symlink" (an unknown type is an error, not a panic); a child of type
    "dir" is resolved by [newDir] on that child. *)
Theorem Lookup_not_found d name h :
  (Lookup d name h = (Err ENOENT, h) ↔
     items d !! name = None
     ∨ ∃ n, items d !! name = Some n
            ∧ restic.Type_ n ≠ "dir"
            ∧ restic.Type_ n ≠ "file"
            ∧ restic.Type_ n ≠ "symlink")
  ∧ (∀ h', Lookup d name h = (Err ENOENT, h') → h' = h)
  ∧ (∀ n, items d !! name = Some n → restic.Type_ n = "dir" →
       Lookup d name h =
         match newDir (repo d) n (ownerIsRoot d) (blobsize d) h with
         | (Ok p, h') => (Ok (DirNode p), h')
         | (Err e, h') => (Err e, h')
         | (Panic, h') => (Panic, h')
         end)
  ∧ (∀ n, items d !! name = Some n →
       restic.Type_ n ≠ "dir" → restic.Type_ n ≠ "file" →
       restic.Type_ n ≠ "symlink" →
       (Lookup d name h).1 ≠ Panic).
Proof.
  assert (Hfwd : ∀ h', Lookup d name h = (Err ENOENT, h') →
            h' = h ∧
            (items d !! name = None
             ∨ ∃ n, items d !! name = Some n
                    ∧ restic.Type_ n ≠ "dir"
                    ∧ restic.Type_ n ≠ "file"
                    ∧ restic.Type_ n ≠ "symlink")).
  { intros h' HL.
    destruct (items d !! name) as [n|] eqn:Hl.
    2:{ rewrite Lookup_absent in HL by done. split; [congruence|by left]. }
    destruct (decide (restic.Type_ n = "dir")) as [Hd|Hd].
    { rewrite (Lookup_dir _ _ n) in HL by done.
      destruct (newDir_outcome (repo d) n (ownerIsRoot d) (blobsize d) h)
        as [[d' Hn]|[[e Hn]|Hn]]; rewrite Hn in HL; discriminate. }
    destruct (decide (restic.Type_ n = "file")) as [Hf|Hf].
    { rewrite (Lookup_file _ _ n) in HL by done.
      destruct (newFile _ _ _ _); discriminate. }
    destruct (decide (restic.Type_ n = "symlink")) as [Hs|Hs].
    { rewrite (Lookup_symlink _ _ n) in HL by done.
      destruct (newLink _ _ _); discriminate. }
    rewrite (Lookup_unknown_type _ _ n) in HL by done.
    split; [congruence|]. right. by exists n. }
  split; [split|split; [|split]].
  - intros HL. by destruct (Hfwd _ HL).
  - intros [Hl|(n & Hl & Hd & Hf & Hs)].
    + by apply Lookup_absent.
    + by apply Lookup_unknown_type with n.
  - intros h' HL. by destruct (Hfwd _ HL).
  - intros n Hl Ht. by apply Lookup_dir.
  - intros n Hl Hd Hf Hs. by rewrite (Lookup_unknown_type _ _ n).
Qed.

(** *** Attributes *)

Lemma wrap32_small z : 0 ≤ z < 2 ^ 32 → wrap32 z = z.
Proof. intros Hz. unfold wrap32. by apply Z.mod_small. Qed.

Lemma wrap32_succ_l z k : wrap32 (wrap32 (z + 1) + k) = wrap32 (z + 1 + k).
Proof. unfold wrap32. by rewrite Zplus_mod_idemp_l. Qed.

(** The counting loop, from any start value: every entry of type "dir"
    adds one, modulo [2^32]. *)
Lemma count_link_foldl (order : list (string * restic.Node)) (c : Z) :
  wrap32 (foldl count_link c order) =
    wrap32 (c + Z.of_nat (length (filter
               (λ entry : string * restic.Node,
                  restic.Type_ entry.2 = "dir") order))).
Proof.
  revert c. induction order as [|entry order IH]; intros c.
  - cbn. f_equal. lia.
  - cbn [foldl]. rewrite IH. unfold count_link at 1.
    destruct (String.eqb_spec (restic.Type_ entry.2) "dir") as [Ht|Ht].
    + rewrite filter_cons_True by done. rewrite wrap32_succ_l.
      cbn [length]. f_equal. lia.
    + by rewrite filter_cons_False by done.
Qed.

Lemma count_link_foldl_range (order : list (string * restic.Node)) (c : Z) :
  0 ≤ c < 2 ^ 32 → 0 ≤ foldl count_link c order < 2 ^ 32.
Proof.
  revert c. induction order as [|entry order IH]; intros c Hc; [done|].
  cbn [foldl]. apply IH. unfold count_link.
  destruct (String.eqb _ _); [|done].
  unfold wrap32. apply Z.mod_pos_bound. lia.
Qed.

Lemma calcNumberOfLinks_in_count (order : list (string * restic.Node)) :
  calcNumberOfLinks_in order =
    wrap32 (2 + Z.of_nat (length (filter
               (λ entry : string * restic.Node,
                  restic.Type_ entry.2 = "dir") order))).
Proof.
  unfold calcNumberOfLinks_in. rewrite <- count_link_foldl.
  symmetry. apply wrap32_small, count_link_foldl_range. lia.
Qed.

(** The count does not depend on the order the map is ranged over. *)
Lemma calcNumberOfLinks_any_order d order :
  range_order (items d) order →
  calcNumberOfLinks_in order = calcNumberOfLinks d.
Proof.
  unfold range_order, calcNumberOfLinks. intros Hp.
  rewrite !calcNumberOfLinks_in_count. by rewrite Hp.
Qed.

Lemma calcNumberOfLinks_subdirs d :
  calcNumberOfLinks d = wrap32 (2 + Z.of_nat (subdirs d)).
Proof. apply calcNumberOfLinks_in_count. Qed.

(** C7. [Attr] reports as link count what [calcNumberOfLinks] computes in
    its [uint32] counter, whichever order the children are ranged over:
    2 plus the number of children of type "dir", modulo [2^32]; that is
    2 plus that number whenever the sum is below [2^32]. *)
Theorem Attr_link_count d a :
  fuse.Nlink (Attr d a).1 = wrap32 (2 + Z.of_nat (subdirs d))
  ∧ (∀ order, range_order (items d) order →
       calcNumberOfLinks_in order = wrap32 (2 + Z.of_nat (subdirs d)))
  ∧ (2 + Z.of_nat (subdirs d) < 2 ^ 32 →
       fuse.Nlink (Attr d a).1 = 2 + Z.of_nat (subdirs d)).
Proof.
  cbn [Attr fst fuse.Nlink]. split; [|split].
  - apply calcNumberOfLinks_subdirs.
  - intros order Ho. rewrite (calcNumberOfLinks_any_order d) by done.
    apply calcNumberOfLinks_subdirs.
  - intros Hlt. rewrite calcNumberOfLinks_subdirs.
    apply wrap32_small. lia.
Qed.

Lemma ModeDir_testbit i : 0 ≤ i → Z.testbit os.ModeDir i = (i =? 31).
Proof.
  intros Hi. unfold os.ModeDir. rewrite Z.shiftl_1_l.
  rewrite Z.pow2_bits_eqb by lia. apply Z.eqb_sym.
Qed.

(** C5. [Attr] reports as mode the directory bit OR'd with the whole mode
    of the node's own descriptor: every bit of the descriptor's mode,
    permission bit or not, is reported as it is. *)
Theorem Attr_mode d a :
  fuse.Mode (Attr d a).1 = Z.lor os.ModeDir (restic.Mode (node d))
  ∧ ∀ i, 0 ≤ i →
      Z.testbit (fuse.Mode (Attr d a).1) i =
        (i =? 31) || Z.testbit (restic.Mode (node d)) i.
Proof.
  cbn [Attr fst fuse.Mode]. split; [done|].
  intros i Hi. by rewrite Z.lor_spec, ModeDir_testbit.
Qed.

(** *** Listing *)

Lemma direntType_dir typ : direntType typ = fuse.DT_Dir ↔ typ = "dir".
Proof.
  unfold direntType.
  destruct (String.eqb_spec typ "dir"); [done|].
  destruct (String.eqb_spec typ "file"); [done|].
  by destruct (String.eqb_spec typ "symlink").
Qed.

Lemma direntType_file typ : direntType typ = fuse.DT_File ↔ typ = "file".
Proof.
  unfold direntType.
  destruct (String.eqb_spec typ "dir"); [by subst|].
  destruct (String.eqb_spec typ "file"); [done|].
  by destruct (String.eqb_spec typ "symlink").
Qed.

Lemma direntType_symlink typ :
  direntType typ = fuse.DT_Link ↔ typ = "symlink".
Proof.
  unfold direntType.
  destruct (String.eqb_spec typ "dir"); [by subst|].
  destruct (String.eqb_spec typ "file"); [by subst|].
  by destruct (String.eqb_spec typ "symlink").
Qed.

Lemma direntType_unknown typ :
  direntType typ = fuse.DT_Unknown ↔
  typ ≠ "dir" ∧ typ ≠ "file" ∧ typ ≠ "symlink".
Proof.
  unfold direntType.
  destruct (String.eqb_spec typ "dir"); [by split; [|intros []]|].
  destruct (String.eqb_spec typ "file"); [by split; [|intros (?&?&?)]|].
  destruct (String.eqb_spec typ "symlink"); [by split; [|intros (?&?&?)]|].
  done.
Qed.

Lemma append_loop {A B} (f : A → B) (l : list A) (acc : list B) :
  foldl (λ ret x, ret ++ [f x]) acc l = acc ++ (f <$> l).
Proof.
  revert acc. induction l as [|x l IH]; intros acc; cbn.
  - by rewrite app_nil_r.
  - by rewrite IH, <- app_assoc.
Qed.

Lemma ReadDirAll_in_entries (order : list (string * restic.Node)) :
  ReadDirAll_in order = ((λ entry, dirent entry.2) <$> order, None).
Proof. unfold ReadDirAll_in. by rewrite append_loop. Qed.

(** [ReadDirAll] always returns: the run that takes stdpp's order is one of
    its runs. *)
Lemma ReadDirAll_total d : ReadDirAll_returns d (ReadDirAll d).
Proof. exists (map_to_list (items d)). split; [by unfold range_order|done]. Qed.

(** C6. Whatever order the children are ranged over, [ReadDirAll] returns
    no error and exactly one entry per child, made from that child's
    descriptor; the entry's type is Dir, File or Symlink when the child's
    type is "dir", "file" or "symlink", and the zero value [DT_Unknown]
    for a child of any other type. *)
Theorem ReadDirAll_entries d r :
  ReadDirAll_returns d r →
  r.2 = None
  ∧ length r.1 = size (items d)
  ∧ r.1 ≡ₚ (λ entry, dirent entry.2) <$> map_to_list (items d)
  ∧ ∀ e, e ∈ r.1 →
      ∃ name n,
        items d !! name = Some n ∧ e = dirent n
        ∧ (fuse.dType e = fuse.DT_Dir ↔ restic.Type_ n = "dir")
        ∧ (fuse.dType e = fuse.DT_File ↔ restic.Type_ n = "file")
        ∧ (fuse.dType e = fuse.DT_Link ↔ restic.Type_ n = "symlink")
        ∧ (fuse.dType e = fuse.DT_Unknown ↔
             restic.Type_ n ≠ "dir" ∧ restic.Type_ n ≠ "file"
             ∧ restic.Type_ n ≠ "symlink").
Proof.
  intros (order & Ho & ->). unfold range_order in Ho.
  rewrite ReadDirAll_in_entries. cbn [fst snd].
  split; [done|]. split; [|split].
  - by rewrite length_fmap, Ho, length_map_to_list.
  - by rewrite Ho.
  - intros e He. apply list_elem_of_fmap in He as ([name n] & -> & Hin).
    rewrite Ho in Hin. apply elem_of_map_to_list in Hin.
    exists name, n. cbn [snd dirent fuse.dType].
    split; [done|]. split; [done|].
    split; [apply direntType_dir|]. split; [apply direntType_file|].
    split; [apply direntType_symlink|apply direntType_unknown].
Qed.

(** *** Extended attributes *)

Lemma scanExtendedAttributes_skip pre rest a :
  (∀ y, y ∈ pre → restic.xName y ≠ a) →
  restic.scanExtendedAttributes (pre ++ rest) a =
    restic.scanExtendedAttributes rest a.
Proof.
  induction pre as [|y pre IH]; intros Hpre; [done|]. cbn.
  destruct (String.eqb_spec (restic.xName y) a) as [Hy|Hy].
  - exfalso. apply (Hpre y); [left|done].
  - apply IH. intros z Hz. apply Hpre. by right.
Qed.

Lemma scanExtendedAttributes_miss attrs a :
  (∀ y, y ∈ attrs → restic.xName y ≠ a) →
  restic.scanExtendedAttributes attrs a = None.
Proof.
  intros Hm. rewrite <- (app_nil_r attrs).
  by rewrite scanExtendedAttributes_skip.
Qed.

Lemma scanExtendedAttributes_first pre x post a :
  (∀ y, y ∈ pre → restic.xName y ≠ a) →
  restic.xName x = a →
  restic.scanExtendedAttributes (pre ++ x :: post) a = restic.xValue x.
Proof.
  intros Hpre Hx. rewrite scanExtendedAttributes_skip by done. cbn.
  by rewrite (proj2 (String.eqb_eq _ _) Hx).
Qed.

(** C8. [Getxattr] looks the requested name up among the extended
    attributes of the node's own descriptor by exact byte comparison.  If
    no entry bears the name (a name differing in case is another name) it
    fails with [ErrNoXattr] and leaves the response alone.  Otherwise the
    first entry bearing the name decides: a non-nil value, empty or not, is
    returned as it is stored; a nil value is taken for a miss and fails
    with [ErrNoXattr] as well. *)
Theorem Getxattr_spec d req resp :
  ((∀ y, y ∈ restic.ExtendedAttributes (node d) →
      restic.xName y ≠ fuse.reqName req) →
   Getxattr d req resp = (resp, Some ErrNoXattr))
  ∧ (∀ pre x post,
       restic.ExtendedAttributes (node d) = pre ++ x :: post →
       (∀ y, y ∈ pre → restic.xName y ≠ fuse.reqName req) →
       restic.xName x = fuse.reqName req →
       Getxattr d req resp =
         match restic.xValue x with
         | Some bs => ({| fuse.Xattr := Some bs |}, None)
         | None => (resp, Some ErrNoXattr)
         end).
Proof.
  unfold Getxattr, restic.GetExtendedAttribute. split.
  - intros Hm. by rewrite scanExtendedAttributes_miss.
  - intros pre x post -> Hpre Hx.
    by rewrite scanExtendedAttributes_first.
Qed.

End Properties.

(** *** Looking a subdirectory up twice *)

Section LookupTwice.

Context {Repository BlobSizeCache file link : Type}.

(** The collaborators as they behave at the first and at the second call. *)
Context (env1 env2 : Env Repository BlobSizeCache file link).

(** C9. Two lookups of a child of type "dir", the second run after the
    first and both given the same listing of the child's subtree by the
    repository, return two directory objects at different addresses, and
    [Attr] fills any [fuse.Attr] the same way from either: same inode,
    mode, uid and gid treatment, times and link count. *)
Theorem Lookup_twice_same_attributes
    (d : dir Repository BlobSizeCache) (name : string) (child : restic.Node)
    (subtree : restic.ID) (tree : restic.Tree)
    (h : heap Repository BlobSizeCache) :
  items d !! name = Some child →
  restic.Type_ child = "dir" →
  restic.Subtree child = Some subtree →
  LoadTree (Env:=env1) (repo d) subtree = Value tree →
  LoadTree (Env:=env2) (repo d) subtree = Value tree →
  ∃ p1 p2 h1 h2 d1 d2,
    Lookup (env:=env1) d name h = (Ok (DirNode p1), h1)
    ∧ Lookup (env:=env2) d name h1 = (Ok (DirNode p2), h2)
    ∧ p1 ≠ p2
    ∧ h2 !! p1 = Some d1
    ∧ h2 !! p2 = Some d2
    ∧ ∀ a, Attr d1 a = Attr d2 a.
Proof.
  intros Hl Ht Hs Ht1 Ht2.
  pose (d' := {| repo := repo d; node := child;
                 items := index_nodes ∅ (restic.Nodes tree);
                 inode := restic.Inode child;
                 ownerIsRoot := ownerIsRoot d;
                 blobsize := blobsize d |}).
  exists (length h), (length (h ++ [d'])), (h ++ [d']), ((h ++ [d']) ++ [d']),
    d', d'.
  split; [|split; [|split; [|split; [|split]]]].
  - rewrite (Lookup_dir (env:=env1) d name child) by done.
    by rewrite (newDir_run (env:=env1) _ _ _ _ subtree tree).
  - rewrite (Lookup_dir (env:=env2) d name child) by done.
    by rewrite (newDir_run (env:=env2) _ _ _ _ subtree tree).
  - rewrite length_app. cbn. lia.
  - apply lookup_app_l_Some, heap_lookup_new.
  - apply heap_lookup_new.
  - done.
Qed.

End LookupTwice.

(** ** The model at work on the sample repository *)

(** The example of the spec: the snapshot root wraps tree 2 under ".";
    the root lists "a.txt" and "sub" and has three links. *)
Example snapshot_root_example :
  ∃ d,
    newDirFromSnapshot (env:=Sample.env) tt Sample.snapshot false tt []
      = (Ok 0%nat, [d])
    ∧ items d = index_nodes ∅ [Sample.a_txt; Sample.sub]
    ∧ items d !! "." = None
    ∧ (fuse.dName <$> (ReadDirAll d).1) ≡ₚ ["a.txt"; "sub"]
    ∧ fuse.Nlink (Attr d Sample.zero_attr).1 = 3.
Proof.
  eexists. split; [reflexivity|]. split; [reflexivity|].
  split; [reflexivity|]. split; [|reflexivity].
  vm_compute. apply perm_swap.
Qed.

(** One level only: the "." inside a flattened "/" stays a child. *)
Example replaceSpecialNodes_one_level :
  replaceSpecialNodes (env:=Sample.env) tt Sample.wrapped []
    = (Ok [Sample.inner_dot; Sample.a_txt], []).
Proof. reflexivity. Qed.

(** A directory child with a nil subtree reference makes [Lookup] panic. *)
Example Lookup_dangling_panics :
  Lookup (env:=Sample.env) Sample.parent "." [] = (Panic, []).
Proof. reflexivity. Qed.

Example Lookup_examples :
  Lookup (env:=Sample.env) Sample.parent "sub" []
    = (Ok (DirNode 0%nat), [Sample.mkDir Sample.sub []])
  ∧ Lookup (env:=Sample.env) Sample.parent "a.txt" []
    = (Ok (LinkNode Sample.a_link), [])
  ∧ Lookup (env:=Sample.env) Sample.parent "pipe" [] = (Err ENOENT, [])
  ∧ Lookup (env:=Sample.env) Sample.parent "nope" [] = (Err ENOENT, []).
Proof. repeat split; reflexivity. Qed.

Example Getxattr_examples :
  Getxattr Sample.tagged {| fuse.reqName := "user.k" |} Sample.zero_resp
    = ({| fuse.Xattr := Some [Byte.x68; Byte.x69] |}, None)
  ∧ Getxattr Sample.tagged {| fuse.reqName := "user.empty" |} Sample.zero_resp
    = ({| fuse.Xattr := Some [] |}, None)
  ∧ Getxattr Sample.tagged {| fuse.reqName := "User.k" |} Sample.zero_resp
    = (Sample.zero_resp, Some ErrNoXattr)
  ∧ Getxattr Sample.tagged {| fuse.reqName := "user" |} Sample.zero_resp
    = (Sample.zero_resp, Some ErrNoXattr).
Proof. repeat split; reflexivity. Qed.

(** ** The claims at concrete inputs *)

Lemma newDirFromSnapshot_dot_wrapper_witness :
  sTree Sample.snapshot = Some 1%N
  ∧ LoadTree (Env:=Sample.env) tt 1%N
      = Value {| restic.Nodes := [Sample.dot] |}
  ∧ restic.Subtree Sample.dot = Some 2%N
  ∧ LoadTree (Env:=Sample.env) tt 2%N
      = Value {| restic.Nodes := [Sample.a_txt; Sample.sub] |}
  ∧ restic.Subtree Sample.inner_dot = Some 3%N
  ∧ ∃ d1 d2,
      newDirFromSnapshot (env:=Sample.env) tt Sample.snapshot false tt []
        = (Ok (length (@nil (dir unit unit))), [] ++ [d1])
      ∧ newDir (env:=Sample.env) tt Sample.dot true tt [Sample.sticky_dir]
        = (Ok (length [Sample.sticky_dir]), [Sample.sticky_dir] ++ [d2])
      ∧ items d1 = items d2.
Proof.
  split; [reflexivity|]. split; [reflexivity|]. split; [reflexivity|].
  split; [reflexivity|]. split; [reflexivity|].
  apply (newDirFromSnapshot_dot_wrapper (env:=Sample.env)
           tt Sample.snapshot 1%N {| restic.Nodes := [Sample.dot] |}
           Sample.dot 2%N {| restic.Nodes := [Sample.a_txt; Sample.sub] |}
           Sample.dot false tt true tt [] [Sample.sticky_dir]);
    reflexivity.
Defined.

Lemma newDir_children_witness :
  restic.Subtree Sample.twice = Some 6%N
  ∧ LoadTree (Env:=Sample.env) tt 6%N
      = Value {| restic.Nodes := [Sample.a_txt; Sample.sub; Sample.a_link] |}
  ∧ ∃ d,
      newDir (env:=Sample.env) tt Sample.twice false tt []
        = (Ok (length (@nil (dir unit unit))), [] ++ [d])
      ∧ ([] ++ [d]) !! length (@nil (dir unit unit)) = Some d
      ∧ dom (items d) =
          list_to_set (restic.Name <$>
                         [Sample.a_txt; Sample.sub; Sample.a_link])
      ∧ (∀ n, n ∈ [Sample.a_txt; Sample.sub; Sample.a_link] →
           is_Some (items d !! restic.Name n))
      ∧ (∀ name,
           items d !! name =
             last (filter (λ n, restic.Name n = name)
                          [Sample.a_txt; Sample.sub; Sample.a_link])).
Proof.
  split; [reflexivity|]. split; [reflexivity|].
  apply (newDir_children (env:=Sample.env) tt Sample.twice false tt 6%N
           {| restic.Nodes := [Sample.a_txt; Sample.sub; Sample.a_link] |} []);
    reflexivity.
Defined.

(** Last write wins, on the sample: "a.txt" is listed as a file and then as
    a symlink; the symlink is the child. *)
Example newDir_last_wins :
  ∃ d,
    newDir (env:=Sample.env) tt Sample.twice false tt [] = (Ok 0%nat, [d])
    ∧ items d !! "a.txt" = Some Sample.a_link
    ∧ size (items d) = 2%nat.
Proof.
  exists (Sample.mkDir Sample.twice [Sample.a_txt; Sample.sub; Sample.a_link]).
  split; [reflexivity|]. split; reflexivity.
Qed.

(** No flattening in [newDir]: tree 5 lists a directory named "."; it is a
    child of the directory built from tree 5, under the name ".". *)
Example newDir_keeps_dot :
  ∃ d,
    newDir (env:=Sample.env) tt Sample.wrapped false tt [] = (Ok 0%nat, [d])
    ∧ items d !! "." = Some Sample.inner_dot
    ∧ size (items d) = 2%nat.
Proof.
  exists (Sample.mkDir Sample.wrapped [Sample.inner_dot; Sample.a_txt]).
  split; [reflexivity|]. split; reflexivity.
Qed.

Lemma replaceSpecialNodes_absent_subtree_witness :
  (restic.Type_ Sample.dangling_dot ≠ "dir"
   ∨ restic.Subtree Sample.dangling_dot = None)
  ∧ replaceSpecialNodes (env:=Sample.env) tt Sample.dangling_dot []
      = (Ok [Sample.dangling_dot], [])
  ∧ ∀ rest m,
      flatten_index (env:=Sample.env) tt (Sample.dangling_dot :: rest) m []
      = flatten_index (env:=Sample.env) tt rest
          (<[restic.Name Sample.dangling_dot := Sample.dangling_dot]> m) [].
Proof.
  split; [right; reflexivity|].
  apply (replaceSpecialNodes_absent_subtree (env:=Sample.env)
           tt Sample.dangling_dot []).
  right; reflexivity.
Defined.

Lemma ReadDirAll_entries_witness :
  ReadDirAll_returns Sample.parent (ReadDirAll Sample.parent)
  ∧ (ReadDirAll Sample.parent).2 = None
  ∧ length (ReadDirAll Sample.parent).1 = size (items Sample.parent)
  ∧ (ReadDirAll Sample.parent).1
      ≡ₚ (λ entry, dirent entry.2) <$> map_to_list (items Sample.parent)
  ∧ ∀ e, e ∈ (ReadDirAll Sample.parent).1 →
      ∃ name n,
        items Sample.parent !! name = Some n ∧ e = dirent n
        ∧ (fuse.dType e = fuse.DT_Dir ↔ restic.Type_ n = "dir")
        ∧ (fuse.dType e = fuse.DT_File ↔ restic.Type_ n = "file")
        ∧ (fuse.dType e = fuse.DT_Link ↔ restic.Type_ n = "symlink")
        ∧ (fuse.dType e = fuse.DT_Unknown ↔
             restic.Type_ n ≠ "dir" ∧ restic.Type_ n ≠ "file"
             ∧ restic.Type_ n ≠ "symlink").
Proof.
  split.
  - exists (map_to_list (items Sample.parent)).
    split; [unfold range_order|]; reflexivity.
  - apply (ReadDirAll_entries Sample.parent (ReadDirAll Sample.parent)).
    exists (map_to_list (items Sample.parent)).
    split; [unfold range_order|]; reflexivity.
Defined.

Lemma Lookup_twice_same_attributes_witness :
  items Sample.parent !! "sub" = Some Sample.sub
  ∧ restic.Type_ Sample.sub = "dir"
  ∧ restic.Subtree Sample.sub = Some 3%N
  ∧ LoadTree (Env:=Sample.env) (repo Sample.parent) 3%N
      = Value {| restic.Nodes := [] |}
  ∧ LoadTree (Env:=Sample.env_later) (repo Sample.parent) 3%N
      = Value {| restic.Nodes := [] |}
  ∧ ∃ p1 p2 h1 h2 d1 d2,
      Lookup (env:=Sample.env) Sample.parent "sub" []
        = (Ok (DirNode p1), h1)
      ∧ Lookup (env:=Sample.env_later) Sample.parent "sub" h1
        = (Ok (DirNode p2), h2)
      ∧ p1 ≠ p2
      ∧ h2 !! p1 = Some d1
      ∧ h2 !! p2 = Some d2
      ∧ ∀ a, Attr d1 a = Attr d2 a.
Proof.
  split; [reflexivity|]. split; [reflexivity|]. split; [reflexivity|].
  split; [reflexivity|]. split; [reflexivity|].
  apply (Lookup_twice_same_attributes Sample.env Sample.env_later
           Sample.parent "sub" Sample.sub 3%N {| restic.Nodes := [] |} []);
    reflexivity.
Defined.

(** *** Where the code departs from the wording of the spec *)

(** C2, as worded, at a directory named "." whose subtree reference is nil:
    it has no subtree whose descriptors could be returned, and the code
    returns the descriptor itself. *)
Lemma replaceSpecialNodes_dangling_dot :
  restic.Type_ Sample.dangling_dot = "dir"
  ∧ restic.Name Sample.dangling_dot = "."
  ∧ replaceSpecialNodes (env:=Sample.env) tt Sample.dangling_dot []
      = (Ok [Sample.dangling_dot], [])
  ∧ ¬ returns_own_subtree (env:=Sample.env) tt Sample.dangling_dot [].
Proof.
  split; [reflexivity|]. split; [reflexivity|]. split; [reflexivity|].
  intros (subtree & tree & Hs & _). discriminate Hs.
Qed.

(** C5, as worded, at the directory built from a descriptor whose mode has
    the sticky bit: the bit is reported, so the reported mode is not the
    directory bit OR'd with the permission bits alone. *)
Lemma Attr_mode_sticky :
  newDir (env:=Sample.env) tt Sample.sticky false tt []
    = (Ok 0%nat, [Sample.sticky_dir])
  ∧ fuse.Mode (Attr Sample.sticky_dir Sample.zero_attr).1
      ≠ Z.lor os.ModeDir (permission_bits Sample.sticky_dir)
  ∧ Z.land (fuse.Mode (Attr Sample.sticky_dir Sample.zero_attr).1)
           os.ModeSticky = os.ModeSticky.
Proof.
  split; [reflexivity|]. split; [|reflexivity].
  vm_compute. discriminate.
Qed.

(** C6, as worded, at the directory built from a listing that holds a
    fifo: its entry has type [DT_Unknown], none of Dir, File, Symlink. *)
Lemma ReadDirAll_fifo :
  newDir (env:=Sample.env) tt Sample.fifos false tt []
    = (Ok 0%nat, [Sample.fifos_dir])
  ∧ ∃ r e,
      ReadDirAll_returns Sample.fifos_dir r
      ∧ e ∈ r.1
      ∧ fuse.dName e = "pipe"
      ∧ fuse.dType e ≠ fuse.DT_Dir
      ∧ fuse.dType e ≠ fuse.DT_File
      ∧ fuse.dType e ≠ fuse.DT_Link.
Proof.
  split; [reflexivity|].
  exists (ReadDirAll Sample.fifos_dir), (dirent Sample.pipe).
  split.
  { exists (map_to_list (items Sample.fifos_dir)).
    split; [unfold range_order|]; reflexivity. }
  split; [vm_compute; left|].
  repeat split; discriminate.
Qed.

(** C8, as worded, at a descriptor that stores the attribute "user.nil"
    with a nil value: the name matches byte for byte, and the fetch fails
    with [ErrNoXattr]. *)
Lemma Getxattr_nil_value :
  (∃ x, x ∈ restic.ExtendedAttributes (node Sample.tagged)
        ∧ restic.xName x = "user.nil")
  ∧ Getxattr Sample.tagged {| fuse.reqName := "user.nil" |} Sample.zero_resp
      = (Sample.zero_resp, Some ErrNoXattr).
Proof.
  split; [|reflexivity].
  exists {| restic.xName := "user.nil"; restic.xValue := None |}.
  split; [|reflexivity]. cbn. do 2 right. left.
Qed.

(** The directory [Sample.crowded]: [2^32 - 2] subdirectories with distinct
    names. *)

Lemma many_Z : Z.of_nat Sample.many = 4294967294.
Proof. unfold Sample.many. apply Z2Nat.id. lia. Qed.

Lemma subdir_named_inj : Inj (=) (=) (λ i, restic.Name (Sample.subdir_named i)).
Proof.
  intros i j Hij. change (pretty i = pretty j) in Hij.
  by apply (inj pretty).
Qed.

Lemma filter_all {A} (P : A → Prop) `{∀ x, Decision (P x)} (l : list A) :
  Forall P l → filter P l = l.
Proof.
  induction 1 as [|x l Hx Hl IH]; [done|].
  by rewrite filter_cons_True, IH.
Qed.

Lemma subdirs_of_distinct (own : restic.Node) (children : list restic.Node) :
  NoDup (restic.Name <$> children) →
  Forall (λ n, restic.Type_ n = "dir") children →
  subdirs (Sample.mkDir own children) = length children.
Proof.
  intros Hnd Hdir. unfold subdirs. cbn [items Sample.mkDir].
  rewrite map_to_list_index_nodes by done.
  rewrite filter_all, length_fmap; [done|].
  apply Forall_fmap. eapply Forall_impl; [exact Hdir|]. done.
Qed.

Lemma subdirs_crowded : subdirs Sample.crowded = Sample.many.
Proof.
  unfold Sample.crowded. rewrite subdirs_of_distinct.
  - by rewrite length_fmap, length_seq.
  - rewrite <- list_fmap_compose.
    pose proof subdir_named_inj as Hinj.
    apply (NoDup_fmap_2 (λ i, restic.Name (Sample.subdir_named i))), NoDup_seq.
  - apply Forall_fmap, Forall_forall. intros i _. reflexivity.
Qed.

(** C7, as worded, at a directory with [2^32 - 2] subdirectories: the
    [uint32] counter wraps, and [Attr] reports a link count of 0 where 2
    plus the number of subdirectories is [2^32]. *)
Lemma Attr_link_count_wraps :
  Z.of_nat (subdirs Sample.crowded) = 4294967294
  ∧ fuse.Nlink (Attr Sample.crowded Sample.zero_attr).1 = 0
  ∧ fuse.Nlink (Attr Sample.crowded Sample.zero_attr).1
      ≠ 2 + Z.of_nat (subdirs Sample.crowded).
Proof.
  assert (Hn : Z.of_nat (subdirs Sample.crowded) = 4294967294)
    by (rewrite subdirs_crowded; apply many_Z).
  assert (Hl : fuse.Nlink (Attr Sample.crowded Sample.zero_attr).1 = 0).
  { cbn [Attr fst fuse.Nlink].
    rewrite calcNumberOfLinks_subdirs, Hn. reflexivity. }
  split; [exact Hn|]. split; [exact Hl|].
  rewrite Hl, Hn. discriminate.
Qed.

(** ** Further properties of the file *)

Section MoreProperties.

Context {Repository BlobSizeCache file link : Type}.
Context {env : Env Repository BlobSizeCache file link}.

Local Abbreviation dir := (dir Repository BlobSizeCache).
Local Abbreviation heap := (heap Repository BlobSizeCache).

Implicit Types (d : dir) (h : heap) (node n : restic.Node).
Implicit Types (nodes : list restic.Node) (m : gmap string restic.Node).
Implicit Types (name : string) (repo : Repository).

Ltac run_steps := unfold bind, call, deref, new, ret, fail.

(** *** Extended attributes: listing and fetching *)

Lemma Append_foldl (attrs : list restic.ExtendedAttribute)
    (resp : fuse.ListxattrResponse) :
  attrs ≠ [] →
  foldl (λ resp attr, fuse.Append resp (restic.xName attr)) resp attrs =
    {| fuse.lXattr :=
         Some (fuse.bytes_of (fuse.lXattr resp)
               ++ concat ((λ attr, listed (restic.xName attr)) <$> attrs)) |}.
Proof.
  induction attrs as [|attr attrs IH] using rev_ind; [done|]. intros _.
  rewrite foldl_snoc, fmap_app, concat_app. cbn [fmap list_fmap concat].
  rewrite app_nil_r.
  destruct (decide (attrs = [])) as [->|Hne].
  - done.
  - rewrite IH by done. unfold fuse.Append, listed. cbn.
    by rewrite <- !app_assoc.
Qed.

(** X1. [Listxattr] never fails.  With no extended attribute on the node's
    own descriptor the response is left as it was (a nil slice stays nil);
    otherwise the response holds what it held, followed by every attribute
    name in the descriptor's order, each closed by a NUL byte, and no
    attribute value. *)
Theorem Listxattr_response d req resp :
  (Listxattr d req resp).2 = None
  ∧ (restic.ExtendedAttributes (node d) = [] →
       (Listxattr d req resp).1 = resp)
  ∧ (restic.ExtendedAttributes (node d) ≠ [] →
       fuse.lXattr (Listxattr d req resp).1 =
         Some (fuse.bytes_of (fuse.lXattr resp)
               ++ concat ((λ attr, listed (restic.xName attr))
                            <$> restic.ExtendedAttributes (node d)))).
Proof.
  unfold Listxattr. cbn [fst snd]. split; [done|]. split.
  - by intros ->.
  - intros Hne. by rewrite Append_foldl.
Qed.

Lemma scanExtendedAttributes_hit attrs a bs :
  restic.scanExtendedAttributes attrs a = Some bs →
  ∃ pre x post,
    attrs = pre ++ x :: post
    ∧ (∀ y, y ∈ pre → restic.xName y ≠ a)
    ∧ restic.xName x = a
    ∧ restic.xValue x = Some bs.
Proof.
  induction attrs as [|y attrs IH]; [done|]. cbn.
  destruct (String.eqb_spec (restic.xName y) a) as [Hy|Hy].
  - intros Hv. exists [], y, attrs. split; [done|].
    split; [by intros z Hz%elem_of_nil|done].
  - intros Hs. destruct (IH Hs) as (pre & x & post & -> & Hpre & Hx & Hv).
    exists (y :: pre), x, post. split; [done|]. split; [|done].
    intros z [->|Hz]%elem_of_cons; [done|by apply Hpre].
Qed.

(** X2. [Getxattr] either fails with [ErrNoXattr] and hands the response
    back untouched, or succeeds and then the response is exactly the
    non-nil value stored in an attribute of the node's own descriptor whose
    name is the requested one, the first with that name. *)
Theorem Getxattr_outcome d req resp resp' err :
  Getxattr d req resp = (resp', err) →
  (err = Some ErrNoXattr ∧ resp' = resp)
  ∨ (err = None
     ∧ ∃ pre x post bs,
         restic.ExtendedAttributes (node d) = pre ++ x :: post
         ∧ (∀ y, y ∈ pre → restic.xName y ≠ fuse.reqName req)
         ∧ restic.xName x = fuse.reqName req
         ∧ restic.xValue x = Some bs
         ∧ resp' = {| fuse.Xattr := Some bs |}).
Proof.
  unfold Getxattr, restic.GetExtendedAttribute.
  destruct (restic.scanExtendedAttributes _ _) as [bs|] eqn:Hs.
  - intros [= <- <-]. right. split; [done|].
    destruct (scanExtendedAttributes_hit _ _ _ Hs)
      as (pre & x & post & Ha & Hpre & Hx & Hv).
    by exists pre, x, post, bs.
  - intros [= <- <-]. by left.
Qed.


(** *** The factories: how they end *)


Lemma flatten_index_all_ok repo top (lists : list (list restic.Node)) m h :
  Forall2 (λ n l, replaceSpecialNodes repo n h = (Ok l, h)) top lists →
  flatten_index repo top m h = (Ok (index_nodes m (concat lists)), h).
Proof.
  intros Hall. revert m.
  induction Hall as [|n l top lists Hn _ IH]; intros m; [done|].
  rewrite flatten_index_cons, Hn, IH. cbn [concat].
  by rewrite index_nodes_app.
Qed.

Lemma flatten_index_first_error repo pre n post e m h :
  Forall (λ x, ∃ l, replaceSpecialNodes repo x h = (Ok l, h)) pre →
  replaceSpecialNodes repo n h = (Err e, h) →
  flatten_index repo (pre ++ n :: post) m h = (Err e, h).
Proof.
  intros Hpre Hn. revert m.
  induction Hpre as [|x pre [l Hx] _ IH]; intros m.
  - cbn [app]. by rewrite flatten_index_cons, Hn.
  - cbn [app]. rewrite flatten_index_cons, Hx. apply IH.
Qed.

(** X5. When the snapshot's tree loads and every top-level descriptor is
    flattened without error, [newDirFromSnapshot] succeeds, and the root's
    children are the index, by name, of the concatenation of the flattened
    lists in the order of the top-level listing: a name maps to the last
    descriptor bearing it in that concatenation, be it a top-level
    descriptor or one that came out of a "." or "/" wrapper. *)
Theorem newDirFromSnapshot_children
    repo snapshot o b root top (lists : list (list restic.Node)) h :
  sTree snapshot = Some root →
  LoadTree repo root = Value top →
  Forall2 (λ n l, replaceSpecialNodes repo n h = (Ok l, h))
          (restic.Nodes top) lists →
  ∃ d,
    newDirFromSnapshot repo snapshot o b h = (Ok (length h), h ++ [d])
    ∧ items d = index_nodes ∅ (concat lists)
    ∧ dom (items d) = list_to_set (restic.Name <$> concat lists)
    ∧ ∀ name,
        items d !! name =
          last (filter (λ n, restic.Name n = name) (concat lists)).
Proof.
  intros Hs Ht Hall. eexists. split.
  { eapply newDirFromSnapshot_run; [done..|].
    by apply flatten_index_all_ok. }
  cbn [items]. split; [done|]. split.
  - rewrite dom_index_nodes, dom_empty_L. apply (left_id_L ∅ (∪)).
  - intros name. rewrite index_nodes_lookup, lookup_empty.
    by destruct (last _).
Qed.

(** X6. [newDirFromSnapshot] gives up at the first failing load and passes
    the error on unchanged, adding nothing to the store: the error of
    loading the snapshot's own tree, or else that of the first "." or "/"
    wrapper of the top-level listing whose subtree cannot be loaded (the
    descriptors before it having been flattened without error). *)
Theorem newDirFromSnapshot_first_error repo snapshot o b root h :
  sTree snapshot = Some root →
  (∀ msg, LoadTree repo root = Failure msg →
     newDirFromSnapshot repo snapshot o b h = (Err (BackendError msg), h))
  ∧ (∀ top pre n post subtree msg,
       LoadTree repo root = Value top →
       restic.Nodes top = pre ++ n :: post →
       Forall (λ x, ∃ l, replaceSpecialNodes repo x h = (Ok l, h)) pre →
       restic.Type_ n = "dir" →
       restic.Name n = "." ∨ restic.Name n = "/" →
       restic.Subtree n = Some subtree →
       LoadTree repo subtree = Failure msg →
       newDirFromSnapshot repo snapshot o b h = (Err (BackendError msg), h)).
Proof.
  intros Hs. split.
  - intros msg Hf. unfold newDirFromSnapshot. run_steps. by rewrite Hs, Hf.
  - intros top pre n post subtree msg Ht Htop Hpre Hty Hname Hsub Hf.
    unfold newDirFromSnapshot. run_steps. rewrite Hs, Ht, Htop.
    rewrite (flatten_index_first_error _ _ _ _ (BackendError msg)); [done..|].
    rewrite (replaceSpecialNodes_special _ _ subtree) by done.
    by rewrite Hf.
Qed.


Lemma newDirFromSnapshot_ok_inv repo snapshot o b h p h' :
  newDirFromSnapshot repo snapshot o b h = (Ok p, h') →
  p = length h
  ∧ ∃ m, h' = h ++ [{| repo := repo; node := snapshot_node snapshot;
                       items := m;
                       inode := inodeFromBackendID (sID snapshot);
                       ownerIsRoot := o; blobsize := b |}]
         ∧ ∃ root top, sTree snapshot = Some root
                       ∧ LoadTree repo root = Value top
                       ∧ flatten_index repo (restic.Nodes top) ∅ h = (Ok m, h).
Proof.
  unfold newDirFromSnapshot. run_steps.
  destruct (sTree snapshot) as [root|]; [|done].
  destruct (LoadTree repo root) as [top|msg] eqn:Ht; [|done].
  destruct (flatten_index_safe repo (restic.Nodes top) ∅ h) as (r & Hr & _).
  rewrite Hr. destruct r as [m| |]; [|done..].
  intros [= <- <-]. split; [done|]. exists m. split; [done|]. eauto.
Qed.

(** X8. The attributes of a snapshot root: the inode derived from the
    snapshot's id, mode directory with permissions 0555 (no write bit),
    the three times equal to the snapshot's time, the process's uid and gid
    truncated to 32 bits unless the owner is masked, whatever the snapshot
    lists. *)
Theorem snapshot_root_attributes repo snapshot o b h p h' :
  newDirFromSnapshot repo snapshot o b h = (Ok p, h') →
  ∃ d,
    h' !! p = Some d
    ∧ ∀ a,
        (Attr d a).2 = None
        ∧ fuse.Inode (Attr d a).1 = inodeFromBackendID (sID snapshot)
        ∧ fuse.Mode (Attr d a).1 = 2147484013
        ∧ Z.land (fuse.Mode (Attr d a).1) 146 = 0
        ∧ fuse.Atime (Attr d a).1 = sTime snapshot
        ∧ fuse.Mtime (Attr d a).1 = sTime snapshot
        ∧ fuse.Ctime (Attr d a).1 = sTime snapshot
        ∧ fuse.Uid (Attr d a).1 = (if o then fuse.Uid a else wrap32 Getuid)
        ∧ fuse.Gid (Attr d a).1 = (if o then fuse.Gid a else wrap32 Getgid)
        ∧ fuse.Size (Attr d a).1 = fuse.Size a.
Proof.
  intros Hr. apply newDirFromSnapshot_ok_inv in Hr as (-> & m & -> & _).
  eexists. split; [apply heap_lookup_new|]. intros a.
  repeat split; reflexivity.
Qed.

(** *** Children are filed under their own names *)

Lemma keys_named_empty : keys_named ∅.
Proof. intros name n Hl. by rewrite lookup_empty in Hl. Qed.

Lemma index_nodes_keys_named m nodes :
  keys_named m → keys_named (index_nodes m nodes).
Proof.
  intros Hm. induction nodes as [|x nodes IH] using rev_ind; [done|].
  rewrite index_nodes_snoc. intros name n.
  rewrite lookup_insert_Some. intros [[<- <-]|[_ Hl]]; [done|by apply IH].
Qed.

Lemma flatten_index_keys_named repo top m h m' h' :
  flatten_index repo top m h = (Ok m', h') →
  keys_named m → keys_named m'.
Proof.
  revert m. induction top as [|n rest IH]; intros m.
  - by intros [= <- <-].
  - rewrite flatten_index_cons.
    destruct (replaceSpecialNodes_safe repo n h) as (r & -> & _).
    destruct r as [nodes| |]; [|done..].
    intros Hf Hm. eapply IH; [done|]. by apply index_nodes_keys_named.
Qed.

Lemma heap_keys_named_new h d :
  heap_keys_named h → keys_named (items d) → heap_keys_named (h ++ [d]).
Proof.
  intros Hh Hd p x. rewrite lookup_app_Some.
  intros [Hl|[_ Hl]]; [by eapply Hh|].
  apply list_lookup_singleton_Some in Hl as [_ <-]. done.
Qed.

Lemma newDir_cases repo node o b h :
  (∃ subtree tree,
     restic.Subtree node = Some subtree
     ∧ LoadTree repo subtree = Value tree
     ∧ newDir repo node o b h =
         (Ok (length h),
          h ++ [{| repo := repo; node := node;
                   items := index_nodes ∅ (restic.Nodes tree);
                   inode := restic.Inode node; ownerIsRoot := o;
                   blobsize := b |}]))
  ∨ (∃ msg, newDir repo node o b h = (Err (BackendError msg), h))
  ∨ newDir repo node o b h = (Panic, h).
Proof.
  destruct (restic.Subtree node) as [subtree|] eqn:Hs.
  - destruct (LoadTree repo subtree) as [tree|msg] eqn:Ht.
    + left. exists subtree, tree. split; [done|]. split; [done|].
      by eapply newDir_run.
    + right; left. exists msg. by eapply newDir_load_fails.
  - right; right. by apply newDir_nil_subtree.
Qed.

(** The ways [Lookup] ends, by the child found under the name. *)
Lemma Lookup_cases d name h :
  ((items d !! name = None
    ∨ ∃ n, items d !! name = Some n ∧ restic.Type_ n ≠ "dir"
           ∧ restic.Type_ n ≠ "file" ∧ restic.Type_ n ≠ "symlink")
   ∧ Lookup d name h = (Err ENOENT, h))
  ∨ (∃ n, items d !! name = Some n ∧ restic.Type_ n = "dir"
          ∧ Lookup d name h =
              match newDir (repo d) n (ownerIsRoot d) (blobsize d) h with
              | (Ok p, h') => (Ok (DirNode p), h')
              | (Err e, h') => (Err e, h')
              | (Panic, h') => (Panic, h')
              end)
  ∨ (∃ n r, items d !! name = Some n
            ∧ (restic.Type_ n = "file" ∨ restic.Type_ n = "symlink")
            ∧ Lookup d name h = (r, h)
            ∧ ((∃ f, r = Ok (FileNode f)) ∨ (∃ l, r = Ok (LinkNode l))
               ∨ ∃ msg, r = Err (BackendError msg))).
Proof.
  destruct (items d !! name) as [n|] eqn:Hl.
  2:{ left. split; [by left|]. by apply Lookup_absent. }
  destruct (decide (restic.Type_ n = "dir")) as [Hd|Hd].
  { right; left. exists n. split; [done|]. split; [done|].
    by apply Lookup_dir. }
  destruct (decide (restic.Type_ n = "file")) as [Hf|Hf].
  { right; right. rewrite (Lookup_file _ _ n) by done.
    eexists n, _. split; [done|]. split; [by left|]. split; [done|].
    destruct (newFile _ _ _ _); eauto. }
  destruct (decide (restic.Type_ n = "symlink")) as [Hs|Hs].
  { right; right. rewrite (Lookup_symlink _ _ n) by done.
    eexists n, _. split; [done|]. split; [by right|]. split; [done|].
    destruct (newLink _ _ _); eauto. }
  left. split; [right; by exists n|]. by apply Lookup_unknown_type with n.
Qed.

Lemma newDirFromSnapshot_cases repo snapshot o b h :
  (∃ m top,
     flatten_index repo (restic.Nodes top) ∅ h = (Ok m, h)
     ∧ newDirFromSnapshot repo snapshot o b h =
         (Ok (length h),
          h ++ [{| repo := repo; node := snapshot_node snapshot;
                   items := m;
                   inode := inodeFromBackendID (sID snapshot);
                   ownerIsRoot := o; blobsize := b |}]))
  ∨ (∃ r, newDirFromSnapshot repo snapshot o b h = (r, h)
          ∧ ∀ p, r ≠ Ok p).
Proof.
  unfold newDirFromSnapshot. run_steps.
  destruct (sTree snapshot) as [root|]; [|right; by eexists].
  destruct (LoadTree repo root) as [top|msg]; [|right; by eexists].
  destruct (flatten_index_safe repo (restic.Nodes top) ∅ h) as (r & Hr & _).
  rewrite Hr. destruct r as [m|e|]; [|right; by eexists..].
  left. by exists m, top.
Qed.

(** X9. Directory objects file every child under the child's own name,
    and the three operations that add objects to the store keep it so:
    after [newDir], [newDirFromSnapshot] or [Lookup], however it ends,
    every object of the store still does. *)
Theorem store_keys_named h :
  heap_keys_named h →
  (∀ repo node o b, heap_keys_named (newDir repo node o b h).2)
  ∧ (∀ repo snapshot o b,
       heap_keys_named (newDirFromSnapshot repo snapshot o b h).2)
  ∧ (∀ d name, heap_keys_named (Lookup d name h).2).
Proof.
  intros Hh.
  assert (HnewDir : ∀ repo node o b,
            heap_keys_named (newDir repo node o b h).2).
  { intros repo node o b.
    destruct (newDir_cases repo node o b h)
      as [(subtree & tree & _ & _ & ->)|[[msg ->]| ->]]; [|done..].
    apply heap_keys_named_new; [done|].
    apply index_nodes_keys_named, keys_named_empty. }
  split; [exact HnewDir|]. split.
  - intros repo snapshot o b.
    destruct (newDirFromSnapshot_cases repo snapshot o b h)
      as [(m & top & Hf & ->)|(r & -> & _)]; [|done].
    apply heap_keys_named_new; [done|]. cbn [items].
    eapply flatten_index_keys_named; [done|apply keys_named_empty].
  - intros d name.
    destruct (Lookup_cases d name h)
      as [[_ ->]|[(n & _ & _ & ->)|(n & r & _ & _ & -> & _)]]; [done| |done].
    specialize (HnewDir (repo d) n (ownerIsRoot d) (blobsize d)).
    by destruct (newDir _ _ _ _ h) as [[p| |] h'].
Qed.

(** X10. In a directory that files its children under their own names,
    every run of [ReadDirAll] lists each child name once: the names of the
    entries are pairwise distinct and are exactly the keys of the
    children map. *)
Theorem ReadDirAll_names d r :
  keys_named (items d) →
  ReadDirAll_returns d r →
  NoDup (fuse.dName <$> r.1)
  ∧ ∀ name, name ∈ fuse.dName <$> r.1 ↔ is_Some (items d !! name).
Proof.
  intros Hk (order & Ho & ->). unfold range_order in Ho.
  rewrite ReadDirAll_in_entries. cbn [fst].
  assert (Hnames : fuse.dName <$> ((λ entry : string * restic.Node,
                                      dirent entry.2) <$> order)
                   = order.*1).
  { rewrite <- list_fmap_compose. apply list_fmap_ext.
    intros i [k n] Hi. cbn. apply Hk.
    apply elem_of_map_to_list. rewrite <- Ho.
    by eapply list_elem_of_lookup_2. }
  rewrite Hnames. split; [rewrite Ho; apply NoDup_fst_map_to_list|].
  intros name. rewrite list_elem_of_fmap. split.
  - intros ([k n] & -> & Hin). rewrite Ho in Hin.
    apply elem_of_map_to_list in Hin. eauto.
  - intros [n Hn]. exists (name, n). split; [done|].
    rewrite Ho. by apply elem_of_map_to_list.
Qed.

Lemma Lookup_known_type d name n h h' :
  items d !! name = Some n →
  restic.Type_ n = "dir" ∨ restic.Type_ n = "file"
    ∨ restic.Type_ n = "symlink" →
  Lookup d name h ≠ (Err ENOENT, h').
Proof.
  intros Hl Hty.
  destruct (Lookup_cases d name h)
    as [[[Hn|(n' & Hn & Hd & Hf & Hs)] _]
       |[(n' & Hn & _ & ->)|(n' & r & Hn & _ & -> & Hr)]].
  - congruence.
  - assert (n' = n) as -> by congruence. by destruct Hty as [?|[?|?]].
  - destruct (newDir_cases (repo d) n' (ownerIsRoot d) (blobsize d) h)
      as [(subtree & tree & _ & _ & ->)|[[msg ->]| ->]]; done.
  - by destruct Hr as [[f ->]|[[l ->]|[msg ->]]].
Qed.

(** X11. Listing and lookup disagree on children of unknown type, and
    only on them: in a directory that files its children under their own
    names, [Lookup] of a name that [ReadDirAll] lists fails with [ENOENT]
    exactly when the entry's type is [DT_Unknown]. *)
Theorem ReadDirAll_Lookup d r e h :
  keys_named (items d) →
  ReadDirAll_returns d r →
  e ∈ r.1 →
  (Lookup d (fuse.dName e) h = (Err ENOENT, h)
   ↔ fuse.dType e = fuse.DT_Unknown).
Proof.
  intros Hk (order & Ho & ->) He. unfold range_order in Ho.
  rewrite ReadDirAll_in_entries in He. cbn [fst] in He.
  apply list_elem_of_fmap in He as ([k n] & -> & Hin).
  rewrite Ho in Hin. apply elem_of_map_to_list in Hin.
  cbn [snd dirent fuse.dName fuse.dType].
  rewrite (Hk _ _ Hin). rewrite direntType_unknown. split.
  - intros HL.
    destruct (decide (restic.Type_ n = "dir")) as [Hd|Hd];
      [by destruct (Lookup_known_type d k n h h Hin); eauto|].
    destruct (decide (restic.Type_ n = "file")) as [Hf|Hf];
      [by destruct (Lookup_known_type d k n h h Hin); eauto|].
    destruct (decide (restic.Type_ n = "symlink")) as [Hs|Hs];
      [by destruct (Lookup_known_type d k n h h Hin); eauto|].
    done.
  - intros (Hd & Hf & Hs). by apply Lookup_unknown_type with n.
Qed.

(** *** Lookup and the store of objects *)

(** X12. [Lookup] never changes an object that is already in the store.
    It adds an object only when it returns a directory, then exactly one,
    at the address it returns; a lookup that fails, panics, or returns a
    file or a symlink leaves the store as it was. *)
Theorem Lookup_store d name h :
  (∀ p x, h !! p = Some x → (Lookup d name h).2 !! p = Some x)
  ∧ (∀ p, (Lookup d name h).1 = Ok (DirNode p) →
       p = length h ∧ ∃ d', (Lookup d name h).2 = h ++ [d'])
  ∧ ((∀ p, (Lookup d name h).1 ≠ Ok (DirNode p)) →
       (Lookup d name h).2 = h).
Proof.
  destruct (Lookup_cases d name h)
    as [[_ ->]|[(n & _ & _ & ->)|(n & r & _ & _ & -> & Hr)]].
  - cbn [fst snd]. done.
  - destruct (newDir_cases (repo d) n (ownerIsRoot d) (blobsize d) h)
      as [(subtree & tree & _ & _ & ->)|[[msg ->]| ->]]; cbn [fst snd];
      [|done..].
    split; [intros p x Hp; by apply lookup_app_l_Some|].
    split; [intros p [= <-]; eauto|].
    intros Hno. by destruct (Hno (length h)).
  - cbn [fst snd]. split; [done|]. split; [|done].
    intros p ->. by destruct Hr as [[f [=]]|[[l [=]]|[msg [=]]]].
Qed.

(** X13. A directory that [Lookup] returns is built from the descriptor
    found under the name, and inherits the parent's repository, owner
    policy and cache.  Its [Attr] reports the inode number that
    [ReadDirAll] lists for that child, the child's times, and the child's
    uid and gid unless the parent masks the owner. *)
Theorem Lookup_child d name n h p h' :
  items d !! name = Some n →
  Lookup d name h = (Ok (DirNode p), h') →
  restic.Type_ n = "dir"
  ∧ ∃ d',
      h' !! p = Some d'
      ∧ node d' = n
      ∧ repo d' = repo d
      ∧ ownerIsRoot d' = ownerIsRoot d
      ∧ blobsize d' = blobsize d
      ∧ ∀ a,
          fuse.Inode (Attr d' a).1 = fuse.dInode (dirent n)
          ∧ fuse.Atime (Attr d' a).1 = restic.AccessTime n
          ∧ fuse.Mtime (Attr d' a).1 = restic.ModTime n
          ∧ fuse.Ctime (Attr d' a).1 = restic.ChangeTime n
          ∧ fuse.Uid (Attr d' a).1 =
              (if ownerIsRoot d then fuse.Uid a else restic.UID n)
          ∧ fuse.Gid (Attr d' a).1 =
              (if ownerIsRoot d then fuse.Gid a else restic.GID n).
Proof.
  intros Hl HL.
  destruct (Lookup_cases d name h)
    as [[_ Hr]|[(n' & Hn & Hty & Hr)|(n' & r & _ & _ & Hr & Hk)]].
  - congruence.
  - assert (n' = n) as -> by congruence. split; [done|].
    rewrite Hr in HL.
    destruct (newDir_cases (repo d) n (ownerIsRoot d) (blobsize d) h)
      as [(subtree & tree & _ & _ & Hnew)|[[msg Hnew]|Hnew]];
      rewrite Hnew in HL; [|done..].
    injection HL as <- <-. eexists. split; [apply heap_lookup_new|].
    cbn [node repo ownerIsRoot blobsize]. repeat split; reflexivity.
  - rewrite Hr in HL. injection HL as -> _.
    by destruct Hk as [[f [=]]|[[l [=]]|[msg [=]]]].
Qed.

(** *** Listings with distinct names *)

Lemma length_filter_named nodes :
  length (filter (λ entry : string * restic.Node,
                    restic.Type_ entry.2 = "dir")
                 ((λ n, (restic.Name n, n)) <$> nodes))
  = length (dir_nodes nodes).
Proof.
  unfold dir_nodes.
  induction nodes as [|n nodes IH]; [done|]. cbn [fmap list_fmap].
  destruct (decide (restic.Type_ n = "dir")) as [Hn|Hn].
  - rewrite !filter_cons_True by done. cbn. by rewrite <- IH.
  - by rewrite !filter_cons_False by done.
Qed.

(** X14. When the names of the loaded listing are pairwise distinct,
    [newDir] builds a directory with one child per descriptor of the
    listing: every run of [ReadDirAll] returns the entries of the listing's
    descriptors, in some order, and [Attr] reports 2 plus the number of
    descriptors of type "dir" in the listing (modulo [2^32]) as link
    count. *)
Theorem newDir_distinct_listing repo node o b subtree tree h :
  restic.Subtree node = Some subtree →
  LoadTree repo subtree = Value tree →
  NoDup (restic.Name <$> restic.Nodes tree) →
  ∃ d,
    newDir repo node o b h = (Ok (length h), h ++ [d])
    ∧ size (items d) = length (restic.Nodes tree)
    ∧ (∀ n, n ∈ restic.Nodes tree ↔ items d !! restic.Name n = Some n)
    ∧ (∀ r, ReadDirAll_returns d r → r.1 ≡ₚ dirent <$> restic.Nodes tree)
    ∧ (∀ a, fuse.Nlink (Attr d a).1 =
              wrap32 (2 + Z.of_nat (length (dir_nodes (restic.Nodes tree))))).
Proof.
  intros Hs Ht Hnd. eexists. split; [by eapply newDir_run|]. cbn [items].
  pose proof (map_to_list_index_nodes (restic.Nodes tree) Hnd) as Hperm.
  split; [|split; [|split]].
  - by rewrite <- length_map_to_list, Hperm, length_fmap.
  - intros n. rewrite <- elem_of_map_to_list, Hperm, list_elem_of_fmap.
    split; [intros Hn; by exists n|]. by intros (n' & [= _ <-] & Hn).
  - intros r (order & Ho & ->). unfold range_order in Ho. cbn [items] in Ho.
    rewrite ReadDirAll_in_entries. cbn [fst].
    rewrite Ho, Hperm, <- list_fmap_compose. done.
  - intros a. cbn [Attr fst fuse.Nlink].
    rewrite calcNumberOfLinks_subdirs. unfold subdirs. cbn [items].
    rewrite Hperm. by rewrite length_filter_named.
Qed.

Lemma length_remove_dups_le {A} `{EqDecision A} (l : list A) :
  (length (remove_dups l) ≤ length l)%nat.
Proof.
  induction l as [|x l IH]; [done|]. cbn.
  destruct (decide_rel _ x l); cbn; lia.
Qed.

(** X15. Whatever the listing, [newDir] builds a directory with as many
    children as the listing has distinct names, hence at most as many as
    it has descriptors; every run of [ReadDirAll] returns that many
    entries. *)
Theorem newDir_size repo node o b subtree tree h :
  restic.Subtree node = Some subtree →
  LoadTree repo subtree = Value tree →
  ∃ d,
    newDir repo node o b h = (Ok (length h), h ++ [d])
    ∧ size (items d)
      = length (remove_dups (restic.Name <$> restic.Nodes tree))
    ∧ (size (items d) ≤ length (restic.Nodes tree))%nat
    ∧ ∀ r, ReadDirAll_returns d r →
        length r.1 = length (remove_dups (restic.Name <$> restic.Nodes tree)).
Proof.
  intros Hs Ht. eexists. split; [by eapply newDir_run|]. cbn [items].
  assert (Hsize : size (index_nodes ∅ (restic.Nodes tree))
                  = length (remove_dups (restic.Name <$> restic.Nodes tree))).
  { rewrite <- size_dom, dom_index_nodes, dom_empty_L.
    rewrite (left_id_L ∅ (∪)).
    rewrite <- (size_list_to_set (C:=gset string)) by apply NoDup_remove_dups.
    f_equal. apply set_eq. intros x.
    by rewrite !elem_of_list_to_set, elem_of_remove_dups. }
  split; [exact Hsize|]. split.
  - rewrite Hsize. etrans; [apply length_remove_dups_le|].
    by rewrite length_fmap.
  - intros r (order & Ho & ->). unfold range_order in Ho. cbn [items] in Ho.
    rewrite ReadDirAll_in_entries. cbn [fst].
    by rewrite length_fmap, Ho, length_map_to_list.
Qed.

(** X16. With pairwise distinct names, the children do not depend on the
    order of the listing: two loads that return the same descriptors in
    different orders make [newDir] build the same children map. *)
Theorem newDir_listing_order
    repo1 repo2 node1 node2 o1 o2 b1 b2 subtree1 subtree2 tree1 tree2 h1 h2 :
  restic.Subtree node1 = Some subtree1 →
  restic.Subtree node2 = Some subtree2 →
  LoadTree repo1 subtree1 = Value tree1 →
  LoadTree repo2 subtree2 = Value tree2 →
  restic.Nodes tree1 ≡ₚ restic.Nodes tree2 →
  NoDup (restic.Name <$> restic.Nodes tree1) →
  ∃ d1 d2,
    newDir repo1 node1 o1 b1 h1 = (Ok (length h1), h1 ++ [d1])
    ∧ newDir repo2 node2 o2 b2 h2 = (Ok (length h2), h2 ++ [d2])
    ∧ items d1 = items d2.
Proof.
  intros Hs1 Hs2 Ht1 Ht2 Hperm Hnd.
  do 2 eexists. split; [by eapply newDir_run|].
  split; [by eapply newDir_run|]. cbn [items].
  apply map_to_list_inj.
  rewrite !map_to_list_index_nodes; [by rewrite Hperm|by rewrite <- Hperm|done].
Qed.

(** *** Ranges of the reported attributes *)

Lemma lor_range32 x y :
  0 ≤ x < 2 ^ 32 → 0 ≤ y < 2 ^ 32 → 0 ≤ Z.lor x y < 2 ^ 32.
Proof.
  intros Hx Hy.
  assert (0 ≤ Z.lor x y) as Hnn by (apply Z.lor_nonneg; lia).
  split; [done|].
  assert (Z.shiftr (Z.lor x y) 32 = 0) as Hsh.
  { rewrite Z.shiftr_lor, !Z.shiftr_div_pow2 by lia.
    by rewrite !Z.div_small by lia. }
  rewrite Z.shiftr_div_pow2 in Hsh by lia.
  apply Z.div_small_iff in Hsh; lia.
Qed.

(** X17. [Attr] keeps its [uint32] fields in range and is idempotent: the
    link count is below [2^32]; if the descriptor's mode is a [uint32], so
    is the reported mode, and it is at least [2^31], the directory bit
    being set whatever the descriptor says; filling an attribute record a
    second time changes nothing. *)
Theorem Attr_ranges d a :
  0 ≤ fuse.Nlink (Attr d a).1 < 2 ^ 32
  ∧ (0 ≤ restic.Mode (node d) < 2 ^ 32 →
       2 ^ 31 ≤ fuse.Mode (Attr d a).1 < 2 ^ 32)
  ∧ Attr d (Attr d a).1 = Attr d a.
Proof.
  cbn [Attr fst fuse.Nlink fuse.Mode]. split; [|split].
  - rewrite calcNumberOfLinks_subdirs. unfold wrap32.
    apply Z.mod_pos_bound. lia.
  - intros Hm.
    assert (0 ≤ os.ModeDir < 2 ^ 32) as Hd by (by vm_compute).
    destruct (lor_range32 _ _ Hd Hm) as [_ Hup]. split; [|done].
    pose proof (Z.add_lor_land os.ModeDir (restic.Mode (node d))) as Hadd.
    assert (Z.land os.ModeDir (restic.Mode (node d))
            ≤ restic.Mode (node d)) as Hland.
    { pose proof (Z.add_lor_land (Z.land os.ModeDir (restic.Mode (node d)))
                    (Z.ldiff (restic.Mode (node d)) os.ModeDir)) as Hsplit.
      assert (Z.lor (Z.land os.ModeDir (restic.Mode (node d)))
                    (Z.ldiff (restic.Mode (node d)) os.ModeDir)
              = restic.Mode (node d)) as Hor.
      { apply Z.bits_inj'. intros i Hi.
        rewrite Z.lor_spec, Z.land_spec, Z.ldiff_spec.
        destruct (Z.testbit os.ModeDir i), (Z.testbit (restic.Mode (node d)) i);
          done. }
      assert (Z.land (Z.land os.ModeDir (restic.Mode (node d)))
                     (Z.ldiff (restic.Mode (node d)) os.ModeDir) = 0) as Hand.
      { apply Z.bits_inj'. intros i Hi.
        rewrite !Z.land_spec, Z.ldiff_spec, Z.bits_0.
        destruct (Z.testbit os.ModeDir i), (Z.testbit (restic.Mode (node d)) i);
          done. }
      assert (0 ≤ Z.ldiff (restic.Mode (node d)) os.ModeDir)
        by (apply Z.ldiff_nonneg; lia).
      lia. }
    change (2 ^ 31) with os.ModeDir. lia.
  - unfold Attr. cbn [fuse.Size fuse.Uid fuse.Gid].
    by destruct (ownerIsRoot d).
Qed.

(** *** The wrapper of a snapshot root is not a child *)

(** X18. When the top-level listing of a snapshot is a single "." or "/"
    wrapper directory and the subtree it points at lists no descriptor of
    that name, the wrapper is not a child of the root: no run of
    [ReadDirAll] lists its name, and [Lookup] of its name fails with
    [ENOENT]. *)
Theorem snapshot_wrapper_hidden
    repo snapshot root top wrapper S tree o b h :
  sTree snapshot = Some root →
  LoadTree repo root = Value top →
  restic.Nodes top = [wrapper] →
  restic.Type_ wrapper = "dir" →
  restic.Name wrapper = "." ∨ restic.Name wrapper = "/" →
  restic.Subtree wrapper = Some S →
  LoadTree repo S = Value tree →
  (∀ n, n ∈ restic.Nodes tree → restic.Name n ≠ restic.Name wrapper) →
  ∃ d,
    newDirFromSnapshot repo snapshot o b h = (Ok (length h), h ++ [d])
    ∧ items d !! restic.Name wrapper = None
    ∧ (∀ h2, Lookup d (restic.Name wrapper) h2 = (Err ENOENT, h2))
    ∧ (∀ r e, ReadDirAll_returns d r → e ∈ r.1 →
         fuse.dName e ≠ restic.Name wrapper).
Proof.
  intros Hroot Htop Hnodes Hty Hname Hsub Htree Hfresh.
  eexists. split.
  { eapply newDirFromSnapshot_run; [done..|].
    rewrite Hnodes, flatten_index_cons.
    rewrite (replaceSpecialNodes_special _ _ S) by done.
    rewrite Htree. reflexivity. }
  cbn [items].
  assert (Hin : ∀ k n, index_nodes ∅ (restic.Nodes tree) !! k = Some n →
                  n ∈ restic.Nodes tree ∧ restic.Name n = k).
  { intros k n. rewrite index_nodes_lookup, lookup_empty.
    destruct (last _) as [n'|] eqn:Hlast; [|done]. intros [= ->].
    apply last_Some in Hlast as [l' Hl'].
    assert (n ∈ filter (λ n, restic.Name n = k) (restic.Nodes tree)) as Hn
      by (rewrite Hl'; set_solver).
    by apply list_elem_of_filter in Hn as [? ?]. }
  assert (Hnone : index_nodes ∅ (restic.Nodes tree) !! restic.Name wrapper
                  = None).
  { destruct (index_nodes ∅ (restic.Nodes tree) !! restic.Name wrapper)
      as [n|] eqn:Hl; [|done].
    destruct (Hin _ _ Hl) as [Hn Hk]. by destruct (Hfresh n Hn). }
  split; [exact Hnone|]. split.
  - intros h2. by apply Lookup_absent.
  - intros r e (order & Ho & ->) He. unfold range_order in Ho.
    cbn [items] in Ho. rewrite ReadDirAll_in_entries in He. cbn [fst] in He.
    apply list_elem_of_fmap in He as ([k n] & -> & Hkn).
    rewrite Ho in Hkn. apply elem_of_map_to_list in Hkn.
    destruct (Hin _ _ Hkn) as [Hn _]. cbn. by apply Hfresh.
Qed.

End MoreProperties.

(** ** The further properties at concrete inputs *)

Lemma Getxattr_outcome_witness :
  Getxattr Sample.tagged {| fuse.reqName := "user.empty" |} Sample.zero_resp
    = ({| fuse.Xattr := Some [] |}, None)
  ∧ (((None : option error) = Some ErrNoXattr
      ∧ {| fuse.Xattr := Some [] |} = Sample.zero_resp)
     ∨ ((None : option error) = None
        ∧ ∃ pre x post bs,
            restic.ExtendedAttributes (node Sample.tagged) = pre ++ x :: post
            ∧ (∀ y, y ∈ pre → restic.xName y ≠ "user.empty")
            ∧ restic.xName x = "user.empty"
            ∧ restic.xValue x = Some bs
            ∧ {| fuse.Xattr := Some [] |} = {| fuse.Xattr := Some bs |})).
Proof.
  split; [reflexivity|].
  apply (Getxattr_outcome Sample.tagged {| fuse.reqName := "user.empty" |}
           Sample.zero_resp).
  reflexivity.
Defined.


(** The listing of the sample: three names, values left out. *)
Example Listxattr_example :
  Listxattr Sample.tagged Sample.zero_lreq Sample.zero_lresp
    = ({| fuse.lXattr :=
            Some (listed "user.k" ++ listed "user.empty"
                  ++ listed "user.nil") |}, None)
  ∧ Listxattr Sample.parent Sample.zero_lreq Sample.zero_lresp
    = (Sample.zero_lresp, None).
Proof. split; reflexivity. Qed.

Lemma newDirFromSnapshot_children_witness :
  sTree Sample.snapshot_mixed = Some 10%N
  ∧ LoadTree (Env:=Sample.env_mixed) tt 10%N
      = Value {| restic.Nodes := [Sample.a_txt; Sample.slash; Sample.sub] |}
  ∧ Forall2 (λ n l, replaceSpecialNodes (env:=Sample.env_mixed) tt n []
                      = (Ok l, []))
            [Sample.a_txt; Sample.slash; Sample.sub]
            [[Sample.a_txt]; [Sample.a_link; Sample.pipe]; [Sample.sub]]
  ∧ ∃ d,
      newDirFromSnapshot (env:=Sample.env_mixed) tt Sample.snapshot_mixed
        false tt []
        = (Ok (length (@nil (dir unit unit))), [] ++ [d])
      ∧ items d =
          index_nodes ∅
            (concat [[Sample.a_txt]; [Sample.a_link; Sample.pipe];
                     [Sample.sub]])
      ∧ dom (items d) =
          list_to_set (restic.Name <$>
            concat [[Sample.a_txt]; [Sample.a_link; Sample.pipe];
                    [Sample.sub]])
      ∧ ∀ name,
          items d !! name =
            last (filter (λ n, restic.Name n = name)
                    (concat [[Sample.a_txt]; [Sample.a_link; Sample.pipe];
                             [Sample.sub]])).
Proof.
  assert (Hall :
    Forall2 (λ n l, replaceSpecialNodes (env:=Sample.env_mixed) tt n []
                      = (Ok l, []))
            [Sample.a_txt; Sample.slash; Sample.sub]
            [[Sample.a_txt]; [Sample.a_link; Sample.pipe]; [Sample.sub]]).
  { repeat constructor. }
  split; [reflexivity|]. split; [reflexivity|]. split; [exact Hall|].
  apply (newDirFromSnapshot_children (env:=Sample.env_mixed)
           tt Sample.snapshot_mixed false tt 10%N
           {| restic.Nodes := [Sample.a_txt; Sample.slash; Sample.sub] |}
           [[Sample.a_txt]; [Sample.a_link; Sample.pipe]; [Sample.sub]] []);
    [reflexivity|reflexivity|exact Hall].
Defined.

(** In the root of the mixed snapshot "a.txt" is the symlink that came out
    of the "/" wrapper, listed after the top-level file of that name. *)
Example newDirFromSnapshot_mixed :
  ∃ d,
    newDirFromSnapshot (env:=Sample.env_mixed) tt Sample.snapshot_mixed
      false tt [] = (Ok 0%nat, [d])
    ∧ items d !! "a.txt" = Some Sample.a_link
    ∧ items d !! "/" = None
    ∧ size (items d) = 3%nat.
Proof.
  exists {| repo := tt;
            items := index_nodes ∅ [Sample.a_txt; Sample.a_link; Sample.pipe;
                                    Sample.sub];
            inode := 78;
            node := snapshot_node (env:=Sample.env_mixed)
                      Sample.snapshot_mixed;
            ownerIsRoot := false;
            blobsize := tt |}.
  split; [reflexivity|]. split; [reflexivity|]. split; reflexivity.
Qed.

Lemma newDirFromSnapshot_first_error_witness :
  sTree Sample.snapshot_broken = Some 20%N
  ∧ (∀ msg, LoadTree (Env:=Sample.env_mixed) tt 20%N = Failure msg →
       newDirFromSnapshot (env:=Sample.env_mixed) tt Sample.snapshot_broken
         false tt [] = (Err (BackendError msg), []))
  ∧ (∀ top pre n post subtree msg,
       LoadTree (Env:=Sample.env_mixed) tt 20%N = Value top →
       restic.Nodes top = pre ++ n :: post →
       Forall (λ x, ∃ l, replaceSpecialNodes (env:=Sample.env_mixed) tt x []
                           = (Ok l, [])) pre →
       restic.Type_ n = "dir" →
       restic.Name n = "." ∨ restic.Name n = "/" →
       restic.Subtree n = Some subtree →
       LoadTree (Env:=Sample.env_mixed) tt subtree = Failure msg →
       newDirFromSnapshot (env:=Sample.env_mixed) tt Sample.snapshot_broken
         false tt [] = (Err (BackendError msg), [])).
Proof.
  split; [reflexivity|].
  apply (newDirFromSnapshot_first_error (env:=Sample.env_mixed)
           tt Sample.snapshot_broken false tt 20%N []).
  reflexivity.
Defined.

(** The broken snapshot: the file before the wrapper is flattened, the
    wrapper's subtree does not load, the construction fails with the
    repository's error and the store stays empty. *)
Example newDirFromSnapshot_broken :
  newDirFromSnapshot (env:=Sample.env_mixed) tt Sample.snapshot_broken
    false tt [] = (Err (BackendError "tree not found"), []).
Proof. reflexivity. Qed.

Lemma snapshot_root_attributes_witness :
  newDirFromSnapshot (env:=Sample.env) tt Sample.snapshot true tt []
    = (Ok 0%nat, [Sample.root_dir])
  ∧ ∃ d,
      [Sample.root_dir] !! 0%nat = Some d
      ∧ ∀ a,
          (Attr d a).2 = None
          ∧ fuse.Inode (Attr d a).1
              = inodeFromBackendID (Env:=Sample.env) (sID Sample.snapshot)
          ∧ fuse.Mode (Attr d a).1 = 2147484013
          ∧ Z.land (fuse.Mode (Attr d a).1) 146 = 0
          ∧ fuse.Atime (Attr d a).1 = sTime Sample.snapshot
          ∧ fuse.Mtime (Attr d a).1 = sTime Sample.snapshot
          ∧ fuse.Ctime (Attr d a).1 = sTime Sample.snapshot
          ∧ fuse.Uid (Attr d a).1
              = (if true then fuse.Uid a
                 else wrap32 (Getuid (Env:=Sample.env)))
          ∧ fuse.Gid (Attr d a).1
              = (if true then fuse.Gid a
                 else wrap32 (Getgid (Env:=Sample.env)))
          ∧ fuse.Size (Attr d a).1 = fuse.Size a.
Proof.
  split; [reflexivity|].
  apply (snapshot_root_attributes (env:=Sample.env) tt Sample.snapshot
           true tt [] 0%nat [Sample.root_dir]).
  reflexivity.
Defined.

Lemma store_keys_named_witness :
  heap_keys_named (@nil (dir unit unit))
  ∧ (∀ repo node o b,
       heap_keys_named (newDir (env:=Sample.env) repo node o b []).2)
  ∧ (∀ repo snapshot o b,
       heap_keys_named
         (newDirFromSnapshot (env:=Sample.env) repo snapshot o b []).2)
  ∧ (∀ d name, heap_keys_named (Lookup (env:=Sample.env) d name []).2).
Proof.
  assert (Hnil : heap_keys_named (@nil (dir unit unit))).
  { intros p d Hp. by destruct p. }
  split; [exact Hnil|].
  apply (store_keys_named (env:=Sample.env) []). exact Hnil.
Defined.

Lemma ReadDirAll_names_witness :
  keys_named (items Sample.parent)
  ∧ ReadDirAll_returns Sample.parent (ReadDirAll Sample.parent)
  ∧ NoDup (fuse.dName <$> (ReadDirAll Sample.parent).1)
  ∧ ∀ name, name ∈ fuse.dName <$> (ReadDirAll Sample.parent).1
            ↔ is_Some (items Sample.parent !! name).
Proof.
  assert (Hk : keys_named (items Sample.parent)).
  { apply index_nodes_keys_named, keys_named_empty. }
  assert (Hr : ReadDirAll_returns Sample.parent (ReadDirAll Sample.parent)).
  { exists (map_to_list (items Sample.parent)).
    split; [unfold range_order|]; reflexivity. }
  split; [exact Hk|]. split; [exact Hr|].
  apply (ReadDirAll_names Sample.parent (ReadDirAll Sample.parent) Hk Hr).
Defined.

Lemma ReadDirAll_Lookup_witness :
  keys_named (items Sample.fifos_dir)
  ∧ ReadDirAll_returns Sample.fifos_dir (ReadDirAll Sample.fifos_dir)
  ∧ dirent Sample.pipe ∈ (ReadDirAll Sample.fifos_dir).1
  ∧ (Lookup (env:=Sample.env) Sample.fifos_dir
       (fuse.dName (dirent Sample.pipe)) [] = (Err ENOENT, [])
     ↔ fuse.dType (dirent Sample.pipe) = fuse.DT_Unknown).
Proof.
  assert (Hk : keys_named (items Sample.fifos_dir)).
  { apply index_nodes_keys_named, keys_named_empty. }
  assert (Hr : ReadDirAll_returns Sample.fifos_dir
                 (ReadDirAll Sample.fifos_dir)).
  { exists (map_to_list (items Sample.fifos_dir)).
    split; [unfold range_order|]; reflexivity. }
  assert (He : dirent Sample.pipe ∈ (ReadDirAll Sample.fifos_dir).1).
  { vm_compute. left. }
  split; [exact Hk|]. split; [exact Hr|]. split; [exact He|].
  apply (ReadDirAll_Lookup (env:=Sample.env) Sample.fifos_dir
           (ReadDirAll Sample.fifos_dir) (dirent Sample.pipe) [] Hk Hr He).
Defined.

Lemma Lookup_child_witness :
  items Sample.parent !! "sub" = Some Sample.sub
  ∧ Lookup (env:=Sample.env) Sample.parent "sub" []
      = (Ok (DirNode 0%nat), [Sample.mkDir Sample.sub []])
  ∧ restic.Type_ Sample.sub = "dir"
  ∧ ∃ d',
      [Sample.mkDir Sample.sub []] !! 0%nat = Some d'
      ∧ node d' = Sample.sub
      ∧ repo d' = repo Sample.parent
      ∧ ownerIsRoot d' = ownerIsRoot Sample.parent
      ∧ blobsize d' = blobsize Sample.parent
      ∧ ∀ a,
          fuse.Inode (Attr d' a).1 = fuse.dInode (dirent Sample.sub)
          ∧ fuse.Atime (Attr d' a).1 = restic.AccessTime Sample.sub
          ∧ fuse.Mtime (Attr d' a).1 = restic.ModTime Sample.sub
          ∧ fuse.Ctime (Attr d' a).1 = restic.ChangeTime Sample.sub
          ∧ fuse.Uid (Attr d' a).1 =
              (if ownerIsRoot Sample.parent then fuse.Uid a
               else restic.UID Sample.sub)
          ∧ fuse.Gid (Attr d' a).1 =
              (if ownerIsRoot Sample.parent then fuse.Gid a
               else restic.GID Sample.sub).
Proof.
  split; [reflexivity|]. split; [reflexivity|].
  apply (Lookup_child (env:=Sample.env) Sample.parent "sub" Sample.sub []
           0%nat [Sample.mkDir Sample.sub []]);
    reflexivity.
Defined.

Lemma newDir_distinct_listing_witness :
  restic.Subtree Sample.mixed_12 = Some 12%N
  ∧ LoadTree (Env:=Sample.env_mixed) tt 12%N
      = Value {| restic.Nodes := [Sample.sub; Sample.pipe; Sample.a_link] |}
  ∧ NoDup (restic.Name <$> [Sample.sub; Sample.pipe; Sample.a_link])
  ∧ ∃ d,
      newDir (env:=Sample.env_mixed) tt Sample.mixed_12 false tt []
        = (Ok (length (@nil (dir unit unit))), [] ++ [d])
      ∧ size (items d) = length [Sample.sub; Sample.pipe; Sample.a_link]
      ∧ (∀ n, n ∈ [Sample.sub; Sample.pipe; Sample.a_link]
              ↔ items d !! restic.Name n = Some n)
      ∧ (∀ r, ReadDirAll_returns d r →
              r.1 ≡ₚ dirent <$> [Sample.sub; Sample.pipe; Sample.a_link])
      ∧ (∀ a, fuse.Nlink (Attr d a).1 =
                wrap32 (2 + Z.of_nat (length (dir_nodes
                  [Sample.sub; Sample.pipe; Sample.a_link])))).
Proof.
  assert (Hnd : NoDup (restic.Name <$>
                         [Sample.sub; Sample.pipe; Sample.a_link])).
  { by apply (bool_decide_unpack _). }
  split; [reflexivity|]. split; [reflexivity|]. split; [exact Hnd|].
  apply (newDir_distinct_listing (env:=Sample.env_mixed) tt Sample.mixed_12
           false tt 12%N
           {| restic.Nodes := [Sample.sub; Sample.pipe; Sample.a_link] |} []);
    [reflexivity|reflexivity|exact Hnd].
Defined.

Lemma newDir_size_witness :
  restic.Subtree Sample.twice = Some 6%N
  ∧ LoadTree (Env:=Sample.env) tt 6%N
      = Value {| restic.Nodes := [Sample.a_txt; Sample.sub; Sample.a_link] |}
  ∧ ∃ d,
      newDir (env:=Sample.env) tt Sample.twice false tt []
        = (Ok (length (@nil (dir unit unit))), [] ++ [d])
      ∧ size (items d)
        = length (remove_dups (restic.Name <$>
                    [Sample.a_txt; Sample.sub; Sample.a_link]))
      ∧ (size (items d)
         ≤ length [Sample.a_txt; Sample.sub; Sample.a_link])%nat
      ∧ ∀ r, ReadDirAll_returns d r →
          length r.1 = length (remove_dups (restic.Name <$>
                                 [Sample.a_txt; Sample.sub; Sample.a_link])).
Proof.
  split; [reflexivity|]. split; [reflexivity|].
  apply (newDir_size (env:=Sample.env) tt Sample.twice false tt 6%N
           {| restic.Nodes := [Sample.a_txt; Sample.sub; Sample.a_link] |} []);
    reflexivity.
Defined.

Lemma newDir_listing_order_witness :
  restic.Subtree Sample.mixed_12 = Some 12%N
  ∧ restic.Subtree Sample.mixed_13 = Some 13%N
  ∧ LoadTree (Env:=Sample.env_mixed) tt 12%N
      = Value {| restic.Nodes := [Sample.sub; Sample.pipe; Sample.a_link] |}
  ∧ LoadTree (Env:=Sample.env_mixed) tt 13%N
      = Value {| restic.Nodes := [Sample.a_link; Sample.sub; Sample.pipe] |}
  ∧ [Sample.sub; Sample.pipe; Sample.a_link]
      ≡ₚ [Sample.a_link; Sample.sub; Sample.pipe]
  ∧ NoDup (restic.Name <$> [Sample.sub; Sample.pipe; Sample.a_link])
  ∧ ∃ d1 d2,
      newDir (env:=Sample.env_mixed) tt Sample.mixed_12 false tt []
        = (Ok (length (@nil (dir unit unit))), [] ++ [d1])
      ∧ newDir (env:=Sample.env_mixed) tt Sample.mixed_13 true tt []
        = (Ok (length (@nil (dir unit unit))), [] ++ [d2])
      ∧ items d1 = items d2.
Proof.
  assert (Hp : [Sample.sub; Sample.pipe; Sample.a_link]
                 ≡ₚ [Sample.a_link; Sample.sub; Sample.pipe]).
  { symmetry. apply (Permutation_cons_append [Sample.sub; Sample.pipe]). }
  assert (Hnd : NoDup (restic.Name <$>
                         [Sample.sub; Sample.pipe; Sample.a_link])).
  { by apply (bool_decide_unpack _). }
  split; [reflexivity|]. split; [reflexivity|]. split; [reflexivity|].
  split; [reflexivity|]. split; [exact Hp|]. split; [exact Hnd|].
  apply (newDir_listing_order (env:=Sample.env_mixed) tt tt
           Sample.mixed_12 Sample.mixed_13 false true tt tt 12%N 13%N
           {| restic.Nodes := [Sample.sub; Sample.pipe; Sample.a_link] |}
           {| restic.Nodes := [Sample.a_link; Sample.sub; Sample.pipe] |}
           [] []);
    [reflexivity..|exact Hp|exact Hnd].
Defined.

Lemma snapshot_wrapper_hidden_witness :
  sTree Sample.snapshot = Some 1%N
  ∧ LoadTree (Env:=Sample.env) tt 1%N
      = Value {| restic.Nodes := [Sample.dot] |}
  ∧ restic.Type_ Sample.dot = "dir"
  ∧ (restic.Name Sample.dot = "." ∨ restic.Name Sample.dot = "/")
  ∧ restic.Subtree Sample.dot = Some 2%N
  ∧ LoadTree (Env:=Sample.env) tt 2%N
      = Value {| restic.Nodes := [Sample.a_txt; Sample.sub] |}
  ∧ (∀ n, n ∈ [Sample.a_txt; Sample.sub] →
          restic.Name n ≠ restic.Name Sample.dot)
  ∧ ∃ d,
      newDirFromSnapshot (env:=Sample.env) tt Sample.snapshot false tt []
        = (Ok (length (@nil (dir unit unit))), [] ++ [d])
      ∧ items d !! restic.Name Sample.dot = None
      ∧ (∀ h2, Lookup (env:=Sample.env) d (restic.Name Sample.dot) h2
               = (Err ENOENT, h2))
      ∧ (∀ r e, ReadDirAll_returns d r → e ∈ r.1 →
                fuse.dName e ≠ restic.Name Sample.dot).
Proof.
  assert (Hfresh : ∀ n, n ∈ [Sample.a_txt; Sample.sub] →
                     restic.Name n ≠ restic.Name Sample.dot).
  { intros n Hn. apply elem_of_cons in Hn as [->|Hn]; [discriminate|].
    apply elem_of_cons in Hn as [->|Hn]; [discriminate|].
    by apply elem_of_nil in Hn. }
  split; [reflexivity|]. split; [reflexivity|]. split; [reflexivity|].
  split; [left; reflexivity|]. split; [reflexivity|].
  split; [reflexivity|]. split; [exact Hfresh|].
  apply (snapshot_wrapper_hidden (env:=Sample.env) tt Sample.snapshot 1%N
           {| restic.Nodes := [Sample.dot] |} Sample.dot 2%N
           {| restic.Nodes := [Sample.a_txt; Sample.sub] |} false tt []);
    [reflexivity|reflexivity|reflexivity|reflexivity|left; reflexivity
    |reflexivity|reflexivity|exact Hfresh].
Defined.
